(** * pet-logger: the in-memory instance cache of [server.js]

    A shallow embedding of the Express handlers of [src/server.js] and of the
    background sweep, with the properties of the cache that the specification
    states.

    Modelling choices.
    - The global [gameInstances] is a JavaScript [Map]: a finite map that
      iterates in insertion order.  It is an association list with the
      operations [set], [delete], [get], [keys], [values] and [entries];
      [set] on a key already present keeps the key's position, [set] on a new
      key appends it.
    - Handlers read and write the global map and read the clock: each handler
      is a function of the request, of the value of [Date.now()] and of the
      map, returning the response (and the new map when it writes).
    - Request bodies are read at the types of the wire contract: identifiers
      and names are strings, [value] and [timestamp] are numbers, and every
      field may be absent ([None] is JavaScript's [undefined]).  Numbers are
      integers ([Z]); [NaN] is [None] where an operation can produce it.
    - [console.log] and the HTTP plumbing are outside the model. *)

From Stdlib Require Import ZArith List String Ascii Bool Lia Sorted Permutation
  DecimalString.
From Stdlib Require DecimalFacts DecimalNat.
Import ListNotations.
Local Open Scope string_scope.
Local Open Scope Z_scope.

Set Implicit Arguments.

(** ** JavaScript truthiness: [!x], [x || d] *)

Class Truthy (A : Type) := truthy : A -> bool.

#[export] Instance Truthy_string : Truthy string :=
  fun s => negb (String.eqb s "").
#[export] Instance Truthy_Z : Truthy Z :=
  fun n => negb (Z.eqb n 0).
#[export] Instance Truthy_option {A} `{Truthy A} : Truthy (option A) :=
  fun o => match o with Some x => truthy x | None => false end.

(** [x || d] where [x] may be [undefined]. *)
Definition js_or {A} `{Truthy A} (x : option A) (d : A) : A :=
  match x with
  | Some v => if truthy v then v else d
  | None => d
  end.

(** ** The insertion-ordered [Map] *)

Module JSMap.
Section Ops.
Variable V : Type.

Definition t := list (string * V).

Definition empty : t := [].

Definition size (m : t) : nat := List.length m.

Definition keys (m : t) : list string := map fst m.

Definition values (m : t) : list V := map snd m.

Definition entries (m : t) : list (string * V) := m.

Fixpoint get (k : string) (m : t) : option V :=
  match m with
  | [] => None
  | (k', v) :: r => if String.eqb k k' then Some v else get k r
  end.

(** A key already present keeps its place; a new key goes last. *)
Fixpoint set (k : string) (v : V) (m : t) : t :=
  match m with
  | [] => [(k, v)]
  | (k', v') :: r =>
      if String.eqb k k' then (k, v) :: r else (k', v') :: set k v r
  end.

Definition delete (k : string) (m : t) : t :=
  filter (fun e => negb (String.eqb k (fst e))) m.

(** [m.keys().next().value] *)
Definition first_key (m : t) : option string :=
  match m with
  | [] => None
  | (k, _) :: _ => Some k
  end.

(** The entries stored under [k]. *)
Definition bound_to (k : string) (m : t) : list (string * V) :=
  filter (fun e => String.eqb k (fst e)) m.

(** Keys are unique: what every map built with [set] and [delete] satisfies. *)
Definition wf (m : t) : Prop := NoDup (keys m).
End Ops.
Arguments empty {V}.
End JSMap.

(** ** Data of the server *)

Definition MAX_STORED_INSTANCES : nat := 100.
Definition INSTANCE_TTL : Z := 3600000.

(** [animalData]: every field is copied as it came, absent or not. *)
Record AnimalData := mkAnimalData {
  displayName : option string;
  value : option Z;
  generation : option string;
  rarity : option string
}.

#[export] Instance Truthy_AnimalData : Truthy AnimalData := fun _ => true.

(** The body of [POST /api/report]. *)
Record ReportBody := mkReportBody {
  body_placeId : option string;
  body_gameInstanceId : option string;
  body_animalData : option AnimalData;
  body_timestamp : option Z;
  body_source : option string
}.

(** [instanceData], the value stored in the map. *)
Record Instance := mkInstance {
  placeId : string;
  gameInstanceId : string;
  animalData : AnimalData;
  timestamp : Z;
  source : string;
  lastUpdated : Z
}.

Definition Cache := JSMap.t Instance.

(** The JSON answer of [POST /api/report]. *)
Record ReportResponse := mkReportResponse {
  status : Z;
  success : bool;
  message : option string;
  error : option string;
  instanceId : option string
}.

(** ** Numeric comparisons with a possibly absent operand

    [undefined] converts to [NaN], and every comparison with [NaN] is false. *)

Definition js_lt (a : option Z) (b : Z) : bool :=
  match a with Some x => x <? b | None => false end.

Definition js_ge (a : option Z) (b : Z) : bool :=
  match a with Some x => x >=? b | None => false end.

(** ** [POST /api/report] *)

(** [`${placeId}_${gameInstanceId}`] *)
Definition make_key (p g : string) : string := p ++ "_" ++ g.

Definition make_instance (p g : string) (a : AnimalData)
    (ts : option Z) (src : option string) (now : Z) : Instance :=
  {| placeId := p;
     gameInstanceId := g;
     animalData := {| displayName := displayName a;
                      value := value a;
                      generation := generation a;
                      rarity := rarity a |};
     timestamp := js_or ts (now / 1000);
     source := js_or src "unknown";
     lastUpdated := now |}.

Definition resp_missing_fields : ReportResponse :=
  {| status := 400; success := false; message := None;
     error := Some "Missing required fields"; instanceId := None |}.

Definition resp_value_too_low : ReportResponse :=
  {| status := 200; success := true;
     message := Some "Value too low, not stored";
     error := None; instanceId := None |}.

Definition resp_stored (key : string) : ReportResponse :=
  {| status := 200; success := true;
     message := Some "Instance stored successfully";
     error := None; instanceId := Some key |}.

(** The size limit applied after the [set]. *)
Definition limit_size (m : Cache) : Cache :=
  if (MAX_STORED_INSTANCES <? JSMap.size m)%nat then
    match JSMap.first_key m with
    | Some firstKey => JSMap.delete firstKey m
    | None => m
    end
  else m.

(** The [catch] branch of the handler. *)
Definition resp_internal_error : ReportResponse :=
  {| status := 500; success := false; message := None;
     error := Some "Internal server error"; instanceId := None |}.

(** [!placeId || !gameInstanceId || !animalData] *)
Definition missing_required (body : ReportBody) : bool :=
  negb (truthy (body_placeId body))
  || negb (truthy (body_gameInstanceId body))
  || negb (truthy (body_animalData body)).

Definition report (body : ReportBody) (now : Z) (gameInstances : Cache)
    : ReportResponse * Cache :=
  if missing_required body
  then (resp_missing_fields, gameInstances)
  else
    match body_placeId body, body_gameInstanceId body, body_animalData body with
    | Some p, Some g, Some a =>
        if js_lt (value a) 3000000 then
          (resp_value_too_low, gameInstances)
        else
          let key := make_key p g in
          let instanceData :=
            make_instance p g a (body_timestamp body) (body_source body) now in
          let gameInstances := JSMap.set key instanceData gameInstances in
          (resp_stored key, limit_size gameInstances)
    | _, _, _ =>
        (* reading a property of [undefined] throws; the three tests above
           exclude it, see [report_never_throws] *)
        (resp_internal_error, gameInstances)
    end.

(** ** The background sweep ([setInterval], every 300000 ms) *)

(** [now - data.timestamp * 1000 > INSTANCE_TTL] *)
Definition sweep_test (now : Z) (data : Instance) : bool :=
  now - timestamp data * 1000 >? INSTANCE_TTL.

(** One tick.  The loop walks the entries and deletes by key; deleting the
    entry being visited does not disturb the iteration over the others. *)
Definition sweep (now : Z) (gameInstances : Cache) : Cache :=
  fold_left
    (fun m e => if sweep_test now (snd e) then JSMap.delete (fst e) m else m)
    (JSMap.entries gameInstances) gameInstances.

(** ** [parseInt] with no radix *)

Definition is_white_space (c : ascii) : bool :=
  match nat_of_ascii c with
  | 9%nat | 10%nat | 11%nat | 12%nat | 13%nat | 32%nat => true
  | _ => false
  end.

Fixpoint trim_start (s : string) : string :=
  match s with
  | String c r => if is_white_space c then trim_start r else s
  | EmptyString => s
  end.

(** The value of [c] as a digit in [radix], if it is one. *)
Definition digit_of (radix : Z) (c : ascii) : option Z :=
  let n := Z.of_nat (nat_of_ascii c) in
  let d :=
    if (48 <=? n) && (n <=? 57) then Some (n - 48)
    else if (97 <=? n) && (n <=? 122) then Some (n - 97 + 10)
    else if (65 <=? n) && (n <=? 90) then Some (n - 65 + 10)
    else None in
  match d with
  | Some v => if v <? radix then Some v else None
  | None => None
  end.

(** The longest prefix of digits; [acc] is [None] until a digit is read. *)
Fixpoint parse_digits (radix : Z) (s : string) (acc : option Z) : option Z :=
  match s with
  | EmptyString => acc
  | String c r =>
      match digit_of radix c with
      | Some d =>
          parse_digits radix r
            (Some (match acc with Some a => a * radix + d | None => d end))
      | None => acc
      end
  end.

Definition strip_sign (s : string) : Z * string :=
  match s with
  | String "-" r => (-1, r)
  | String "+" r => (1, r)
  | _ => (1, s)
  end.

Definition strip_hex_prefix (s : string) : Z * string :=
  match s with
  | String "0" (String "x" r) => (16, r)
  | String "0" (String "X" r) => (16, r)
  | _ => (10, s)
  end.

(** [None] is [NaN]. *)
Definition parseInt (s : string) : option Z :=
  let '(sign, s1) := strip_sign (trim_start s) in
  let '(radix, s2) := strip_hex_prefix s1 in
  match parse_digits radix s2 None with
  | Some n => Some (sign * n)
  | None => None
  end.

(** [parseInt(req.query.x)]: an absent parameter is [undefined], which
    [parseInt] reads as the string "undefined". *)
Definition parseInt_param (x : option string) : option Z :=
  match x with
  | Some s => parseInt s
  | None => parseInt "undefined"
  end.

(** ** [GET /api/instances] *)

Record InstancesQuery := mkInstancesQuery {
  query_minValue : option string;
  query_limit : option string
}.

Record AnimalView := mkAnimalView {
  view_name : option string;
  view_value : option Z;
  view_generation : option string;
  view_rarity : option string
}.

Record InstanceView := mkInstanceView {
  view_placeId : string;
  view_gameInstanceId : string;
  view_animal : AnimalView;
  view_timestamp : Z;
  view_age : Z
}.

Record InstancesResponse := mkInstancesResponse {
  instances_success : bool;
  instances_count : nat;
  instances_list : list InstanceView
}.

(** The object sent for one instance; [age] is
    [Math.floor((Date.now() - inst.lastUpdated) / 1000)]. *)
Definition project (now : Z) (inst : Instance) : InstanceView :=
  {| view_placeId := placeId inst;
     view_gameInstanceId := gameInstanceId inst;
     view_animal := {| view_name := displayName (animalData inst);
                       view_value := value (animalData inst);
                       view_generation := generation (animalData inst);
                       view_rarity := rarity (animalData inst) |};
     view_timestamp := timestamp inst;
     view_age := (now - lastUpdated inst) / 1000 |}.

(** [(a, b) => b.animalData.value - a.animalData.value]; [None] is [NaN]. *)
Definition by_value_desc (a b : Instance) : option Z :=
  match value (animalData b), value (animalData a) with
  | Some vb, Some va => Some (vb - va)
  | _, _ => None
  end.

Section ArrayOps.
Variable A : Type.
(** The comparator of [sort]; a [NaN] result counts as [0]. *)
Variable cmp : A -> A -> option Z.

Definition comes_first (x y : A) : bool :=
  match cmp x y with Some c => c <=? 0 | None => true end.

Fixpoint insert_sorted (x : A) (l : list A) : list A :=
  match l with
  | [] => [x]
  | y :: r => if comes_first x y then x :: y :: r else y :: insert_sorted x r
  end.

(** [Array.prototype.sort]: a stable sort. *)
Fixpoint array_sort (l : list A) : list A :=
  match l with
  | [] => []
  | x :: r => insert_sorted x (array_sort r)
  end.

(** [l.slice(0, end)]: a negative [end] counts from the end of the array. *)
Definition slice0 (end_ : Z) (l : list A) : list A :=
  let len := Z.of_nat (List.length l) in
  let final := if end_ <? 0 then Z.max (len + end_) 0 else Z.min end_ len in
  firstn (Z.to_nat final) l.
End ArrayOps.

(** The filter, sort and slice of the handler, on given [minValue], [limit]. *)
Definition query (minValue limit : Z) (gameInstances : Cache) : list Instance :=
  slice0 limit
    (array_sort by_value_desc
       (filter (fun instance => js_ge (value (animalData instance)) minValue)
          (JSMap.values gameInstances))).

Definition instances (q : InstancesQuery) (now : Z) (gameInstances : Cache)
    : InstancesResponse :=
  let minValue := js_or (parseInt_param (query_minValue q)) 3000000 in
  let limit := js_or (parseInt_param (query_limit q)) 50 in
  let found := query minValue limit gameInstances in
  {| instances_success := true;
     instances_count := List.length found;
     instances_list := map (project now) found |}.

(** ** [GET /api/best] *)

Record BestResponse := mkBestResponse {
  best_success : bool;
  best_instance : option InstanceView;
  best_message : option string
}.

(** One turn of the loop over [gameInstances.values()], on the pair
    [(bestInstance, bestValue)]: the test is
    [instance.animalData.value > bestValue], false when the value is absent. *)
Definition best_step (st : option Instance * Z) (instance : Instance)
    : option Instance * Z :=
  match value (animalData instance) with
  | Some v => if v >? snd st then (Some instance, v) else st
  | None => st
  end.

Definition best_scan (gameInstances : Cache) : option Instance :=
  fst (fold_left best_step (JSMap.values gameInstances) (None, 0)).

Definition best (now : Z) (gameInstances : Cache) : BestResponse :=
  if (JSMap.size gameInstances =? 0)%nat then
    {| best_success := true; best_instance := None;
       best_message := Some "No instances available" |}
  else
    {| best_success := true;
       best_instance := option_map (project now) (best_scan gameInstances);
       best_message := None |}.

(** ** [GET /api/health] and [DELETE /api/instance/:gameInstanceId] *)

Definition health_instances (gameInstances : Cache) : nat :=
  JSMap.size gameInstances.

Fixpoint find_instance (id : string) (es : list (string * Instance))
    : option string :=
  match es with
  | [] => None
  | (key, instance) :: r =>
      if String.eqb (gameInstanceId instance) id then Some key
      else find_instance id r
  end.

(** Returns [deleted] and the new map. *)
Definition delete_instance (id : string) (gameInstances : Cache)
    : bool * Cache :=
  match find_instance id (JSMap.entries gameInstances) with
  | Some key => (true, JSMap.delete key gameInstances)
  | None => (false, gameInstances)
  end.

(** ** Runs of the server *)

Inductive Call :=
| CallReport (body : ReportBody)
| CallSweep
| CallDelete (id : string).

(** One call at clock value [now]. *)
Definition step (gameInstances : Cache) (c : Call * Z) : Cache :=
  match fst c with
  | CallReport body => snd (report body (snd c) gameInstances)
  | CallSweep => sweep (snd c) gameInstances
  | CallDelete id => snd (delete_instance id gameInstances)
  end.

Definition run (calls : list (Call * Z)) (gameInstances : Cache) : Cache :=
  fold_left step calls gameInstances.

(** A run made of [report] calls only. *)
Definition run_reports (calls : list (ReportBody * Z)) (gameInstances : Cache)
    : Cache :=
  fold_left (fun m c => snd (report (fst c) (snd c) m)) calls gameInstances.

(** Whether the separator of [make_key] occurs in a string. *)
Fixpoint has_underscore (s : string) : bool :=
  match s with
  | EmptyString => false
  | String c r => if Ascii.eqb c "_"%char then true else has_underscore r
  end.

(** The key and the record that [report] stores for a request, when the
    request passes both tests of the handler. *)
Definition admitted (body : ReportBody) (now : Z) : option (string * Instance) :=
  match body_placeId body, body_gameInstanceId body, body_animalData body with
  | Some p, Some g, Some a =>
      if missing_required body then None
      else if js_lt (value a) 3000000 then None
      else Some (make_key p g,
                 make_instance p g a (body_timestamp body) (body_source body) now)
  | _, _, _ => None
  end.

(** Order by value, as the comparator of [/api/instances] sees it on entries
    that have a value. *)
Definition value_ge (a b : Instance) : Prop :=
  match value (animalData a), value (animalData b) with
  | Some va, Some vb => vb <= va
  | _, _ => False
  end.

Definition has_value (i : Instance) : Prop :=
  exists v, value (animalData i) = Some v.

(** What the loop of [/api/best] has established about the pair
    [(bestInstance, bestValue)] once it has visited [seen]. *)
Definition best_inv (seen : list Instance) (st : option Instance * Z) : Prop :=
  match fst st with
  | None =>
      snd st = 0
      /\ forall x v, In x seen -> value (animalData x) = Some v -> v <= 0
  | Some i =>
      exists pre post,
        seen = (pre ++ i :: post)%list
        /\ value (animalData i) = Some (snd st)
        /\ 0 < snd st
        /\ (forall x v, In x pre -> value (animalData x) = Some v -> v < snd st)
        /\ (forall x v, In x post -> value (animalData x) = Some v -> v <= snd st)
  end.

(** What holds of the map between calls: unique keys, and the size limit. *)
Definition cache_ok (c : Cache) : Prop :=
  JSMap.wf c /\ (JSMap.size c <= MAX_STORED_INSTANCES)%nat.

(** The three ways [report] ends, as a relation between the request and the
    result, for case analysis. *)
Inductive report_view (body : ReportBody) (now : Z) (c : Cache)
    : ReportResponse * Cache -> Prop :=
| RV_missing :
    missing_required body = true ->
    report_view body now c (resp_missing_fields, c)
| RV_too_low p g a :
    body_placeId body = Some p -> body_gameInstanceId body = Some g ->
    body_animalData body = Some a ->
    missing_required body = false ->
    js_lt (value a) 3000000 = true ->
    report_view body now c (resp_value_too_low, c)
| RV_stored p g a :
    body_placeId body = Some p -> body_gameInstanceId body = Some g ->
    body_animalData body = Some a ->
    missing_required body = false ->
    js_lt (value a) 3000000 = false ->
    report_view body now c
      (resp_stored (make_key p g),
       limit_size
         (JSMap.set (make_key p g)
            (make_instance p g a (body_timestamp body) (body_source body) now)
            c)).

(** What every stored entry looks like: it sits under the key made of its own
    identifiers, both non-empty, and its value passed the test of [report]
    (it is absent, or at least 3000000). *)
Definition entry_ok (e : string * Instance) : Prop :=
  fst e = make_key (placeId (snd e)) (gameInstanceId (snd e))
  /\ placeId (snd e) <> ""
  /\ gameInstanceId (snd e) <> ""
  /\ source (snd e) <> ""
  /\ js_lt (value (animalData (snd e))) 3000000 = false.


(** ** Sample data *)

Definition dog (v : Z) : AnimalData :=
  {| displayName := Some "Dog"; value := Some v;
     generation := Some "G1"; rarity := Some "rare" |}.

Definition sample_body (p g : string) (v : Z) : ReportBody :=
  {| body_placeId := Some p; body_gameInstanceId := Some g;
     body_animalData := Some (dog v);
     body_timestamp := None; body_source := None |}.

(** A report that carries a [timestamp] (seconds) chosen by its sender. *)
Definition stamped_body (p g : string) (v ts : Z) : ReportBody :=
  {| body_placeId := Some p; body_gameInstanceId := Some g;
     body_animalData := Some (dog v);
     body_timestamp := Some ts; body_source := None |}.

(** One entry, stored at clock 0 and never refreshed. *)
Definition old_cache : Cache :=
  snd (report (sample_body "P1" "I1" 5000000) 0 JSMap.empty).

(** Two entries: the first stored at clock 0 but stamped 5000 s by its sender,
    the second stored at clock 3999000 but stamped 1 s. *)
Definition stamped_cache : Cache :=
  run_reports [(stamped_body "P1" "I1" 5000000 5000, 0);
               (stamped_body "P2" "I2" 6000000 1, 3999000)] JSMap.empty.

(** Reports for the places "1", "2", ...: report [n] arrives at clock
    [n * 1000]. *)
Definition place_name (n : nat) : string :=
  NilEmpty.string_of_uint (Nat.to_uint n).

Definition numbered_calls (n : nat) : list (ReportBody * Z) :=
  map (fun k => (sample_body (place_name k) "I" (3000000 + Z.of_nat k),
                 Z.of_nat k * 1000))
      (seq 1 n).

(** A hundred places, then place "1" reported again: its entry is the most
    recent one by every time stamp, and still the first of the map. *)
Definition refreshed_calls : list (ReportBody * Z) :=
  (numbered_calls 100
   ++ [(sample_body (place_name 1) "I" 9000000, 200000)])%list.

(** A report with no [value] in its [animalData], and one whose [animalData]
    is the empty object. *)
Definition no_value_body : ReportBody :=
  {| body_placeId := Some "P1"; body_gameInstanceId := Some "I1";
     body_animalData :=
       Some {| displayName := Some "Dog"; value := None;
               generation := Some "G1"; rarity := Some "rare" |};
     body_timestamp := None; body_source := None |}.

Definition empty_animal_body : ReportBody :=
  {| body_placeId := Some "P1"; body_gameInstanceId := Some "I1";
     body_animalData :=
       Some {| displayName := None; value := None;
               generation := None; rarity := None |};
     body_timestamp := None; body_source := None |}.

(** The map after the report without [value], sent at clock 1000. *)
Definition no_value_cache : Cache :=
  snd (report no_value_body 1000 JSMap.empty).

(** * Properties *)

(** ** The handlers on sample requests *)

Example parseInt_samples :
  parseInt "42" = Some 42 /\ parseInt "  -7px" = Some (-7) /\
  parseInt "0x1F" = Some 31 /\ parseInt "abc" = None /\
  parseInt "" = None /\ parseInt_param None = None /\ parseInt "0" = Some 0.
Proof. repeat split; reflexivity. Qed.

Example spec_example :
  let c1 := snd (report (sample_body "P1" "I1" 5000000) 1000 JSMap.empty) in
  let r2 := report (sample_body "P1" "I1" 1000000) 2000 c1 in
  map (fun i => value (animalData i)) (query 3000000 10 c1) = [Some 5000000]
  /\ snd r2 = c1
  /\ option_map view_animal (best_instance (best 3000 (snd r2)))
     = Some {| view_name := Some "Dog"; view_value := Some 5000000;
               view_generation := Some "G1"; view_rarity := Some "rare" |}.
Proof. repeat split; reflexivity. Qed.

(** ** Facts about the insertion-ordered map *)

Module JSMapFacts.
Import JSMap.
Section Facts.
Variable V : Type.
Implicit Types (m : JSMap.t V) (k : string) (v : V).

Lemma size_set_le k v m : (size (set k v m) <= S (size m))%nat.
Proof.
  unfold size. induction m as [|[k' v'] r IH]; simpl; [lia|].
  destruct (String.eqb k k'); simpl; lia.
Qed.

Lemma size_set_ge k v m : (size m <= size (set k v m))%nat.
Proof.
  unfold size. induction m as [|[k' v'] r IH]; simpl; [lia|].
  destruct (String.eqb k k'); simpl; lia.
Qed.

Lemma keys_set k v m k' :
  In k' (keys (set k v m)) <-> k' = k \/ In k' (keys m).
Proof.
  unfold keys. induction m as [|[k0 v0] r IH]; simpl.
  - intuition.
  - destruct (String.eqb_spec k k0) as [->|Hne]; simpl.
    + intuition.
    + rewrite IH. intuition.
Qed.

Lemma wf_set k v m : wf m -> wf (set k v m).
Proof.
  unfold wf. induction m as [|[k0 v0] r IH]; simpl; intros Hwf.
  - constructor; [intros []|constructor].
  - inversion Hwf as [|? ? Hnin Hr]; subst.
    destruct (String.eqb_spec k k0) as [->|Hne]; simpl.
    + constructor; assumption.
    + constructor; [|apply IH; assumption].
      intros Hin. apply (keys_set k v r k0) in Hin.
      destruct Hin as [->|Hin]; [congruence|contradiction].
Qed.

Lemma in_delete k m e :
  In e (delete k m) <-> In e m /\ fst e <> k.
Proof.
  unfold delete. rewrite filter_In.
  destruct (String.eqb_spec k (fst e)); simpl; intuition congruence.
Qed.

Lemma keys_delete k m k' :
  In k' (keys (delete k m)) -> In k' (keys m).
Proof.
  unfold keys. rewrite !in_map_iff.
  intros [e [He Hin]]. exists e. split; [assumption|].
  apply in_delete in Hin. tauto.
Qed.

Lemma wf_delete k m : wf m -> wf (delete k m).
Proof.
  unfold wf, keys, delete. induction m as [|[k0 v0] r IH]; simpl; intros Hwf.
  - constructor.
  - inversion Hwf as [|? ? Hnin Hr]; subst.
    destruct (String.eqb k k0); simpl; [apply IH; assumption|].
    constructor; [|apply IH; assumption].
    intros Hin. apply Hnin. apply (keys_delete k r k0 Hin).
Qed.

Lemma size_delete_le k m : (size (delete k m) <= size m)%nat.
Proof. unfold size, delete. apply filter_length_le. Qed.

Lemma delete_absent k m : ~ In k (keys m) -> delete k m = m.
Proof.
  unfold keys, delete. induction m as [|[k0 v0] r IH]; simpl; intros Hnin.
  - reflexivity.
  - destruct (String.eqb_spec k k0) as [->|Hne]; simpl.
    + exfalso. apply Hnin. left. reflexivity.
    + f_equal. apply IH. intros Hin. apply Hnin. right. assumption.
Qed.

(** Deleting the first key of a map removes its first entry and nothing
    else. *)
Lemma delete_first k v m : wf ((k, v) :: m) -> delete k ((k, v) :: m) = m.
Proof.
  intros Hwf. inversion Hwf as [|? ? Hnin Hr]; subst.
  unfold delete. simpl. rewrite String.eqb_refl. simpl.
  apply delete_absent. assumption.
Qed.

Lemma get_set_same k v m : get k (set k v m) = Some v.
Proof.
  induction m as [|[k0 v0] r IH]; simpl.
  - rewrite String.eqb_refl. reflexivity.
  - destruct (String.eqb_spec k k0) as [->|Hne]; simpl.
    + rewrite String.eqb_refl. reflexivity.
    + destruct (String.eqb_spec k k0); [contradiction|assumption].
Qed.

Lemma get_set_other k k' v m : k' <> k -> get k' (set k v m) = get k' m.
Proof.
  intros Hne. induction m as [|[k0 v0] r IH]; simpl.
  - destruct (String.eqb_spec k' k); [contradiction|reflexivity].
  - destruct (String.eqb_spec k k0) as [->|Hne0]; simpl.
    + destruct (String.eqb_spec k' k0); [contradiction|reflexivity].
    + rewrite IH. reflexivity.
Qed.

Lemma get_delete_other k k' m : k' <> k -> get k' (delete k m) = get k' m.
Proof.
  intros Hne. unfold delete. induction m as [|[k0 v0] r IH]; simpl.
  - reflexivity.
  - destruct (String.eqb_spec k k0) as [->|Hne0]; simpl.
    + destruct (String.eqb_spec k' k0); [contradiction|assumption].
    + rewrite IH. reflexivity.
Qed.


Lemma in_get k v m : wf m -> In (k, v) m -> get k m = Some v.
Proof.
  unfold wf, keys. induction m as [|[k0 v0] r IH]; simpl; intros Hwf Hin.
  - contradiction.
  - inversion Hwf as [|? ? Hnin Hr]; subst.
    destruct Hin as [Heq|Hin].
    + injection Heq as -> ->. rewrite String.eqb_refl. reflexivity.
    + destruct (String.eqb_spec k k0) as [->|Hne]; [|apply IH; assumption].
      exfalso. apply Hnin. apply in_map_iff. exists (k0, v). split; auto.
Qed.

Lemma bound_to_absent k m : ~ In k (keys m) -> bound_to k m = [].
Proof.
  unfold keys, bound_to. induction m as [|[k0 v0] r IH]; simpl; intros Hnin.
  - reflexivity.
  - destruct (String.eqb_spec k k0) as [->|Hne]; simpl.
    + exfalso. apply Hnin. left. reflexivity.
    + apply IH. intros Hin. apply Hnin. right. assumption.
Qed.

(** In a map with unique keys, [get] finds the one entry under the key. *)
Lemma bound_to_get k v m :
  wf m -> get k m = Some v -> bound_to k m = [(k, v)].
Proof.
  unfold wf. induction m as [|[k0 v0] r IH]; simpl; intros Hwf Hget.
  - discriminate.
  - inversion Hwf as [|? ? Hnin Hr]; subst.
    unfold bound_to. simpl.
    destruct (String.eqb_spec k k0) as [->|Hne]; simpl.
    + injection Hget as ->. f_equal. apply bound_to_absent. assumption.
    + apply IH; assumption.
Qed.
End Facts.
End JSMapFacts.

(** ** [report]: case analysis and the invariant *)

Lemma report_inv body now c : report_view body now c (report body now c).
Proof.
  unfold report.
  destruct (missing_required body) eqn:Hm; [constructor; assumption|].
  destruct (body_placeId body) as [p|] eqn:Hp;
    [|unfold missing_required in Hm; rewrite Hp in Hm; discriminate].
  destruct (body_gameInstanceId body) as [g|] eqn:Hg;
    [|unfold missing_required in Hm; rewrite Hg in Hm; simpl in Hm;
      rewrite orb_true_r in Hm; discriminate].
  destruct (body_animalData body) as [a|] eqn:Ha;
    [|unfold missing_required in Hm; rewrite Ha in Hm; simpl in Hm;
      rewrite orb_true_r in Hm; discriminate].
  destruct (js_lt (value a) 3000000) eqn:Hlt.
  - eapply RV_too_low; eassumption.
  - eapply RV_stored; eassumption.
Qed.

(** The [catch] branch is never taken. *)
Lemma report_never_throws body now c :
  fst (report body now c) <> resp_internal_error.
Proof.
  destruct (report_inv body now c); simpl; discriminate.
Qed.

Lemma limit_size_within (m : Cache) :
  (JSMap.size m <= MAX_STORED_INSTANCES)%nat -> limit_size m = m.
Proof.
  intros H. unfold limit_size.
  destruct (Nat.ltb_spec MAX_STORED_INSTANCES (JSMap.size m)); [lia|reflexivity].
Qed.

(** Over the limit, the entry at the front of the map (the oldest in insertion
    order) is the one removed. *)
Lemma limit_size_over (m : Cache) :
  JSMap.wf m -> (MAX_STORED_INSTANCES < JSMap.size m)%nat ->
  limit_size m = tl m.
Proof.
  intros Hwf H. unfold limit_size.
  destruct (Nat.ltb_spec MAX_STORED_INSTANCES (JSMap.size m)); [|lia].
  destruct m as [|[k v] r]; simpl; [reflexivity|].
  apply JSMapFacts.delete_first. assumption.
Qed.

Lemma limit_size_ok (m : Cache) :
  JSMap.wf m -> (JSMap.size m <= S MAX_STORED_INSTANCES)%nat ->
  cache_ok (limit_size m).
Proof.
  intros Hwf Hsz.
  destruct (Nat.ltb_spec MAX_STORED_INSTANCES (JSMap.size m)) as [Hover|Hin].
  - rewrite limit_size_over by assumption.
    destruct m as [|e r]; simpl in *.
    + split; [constructor|unfold JSMap.size; simpl; lia].
    + split; [inversion Hwf; assumption|unfold JSMap.size in *; simpl in *; lia].
  - rewrite limit_size_within by assumption. split; assumption.
Qed.

Lemma report_ok body now c : cache_ok c -> cache_ok (snd (report body now c)).
Proof.
  intros [Hwf Hsz].
  destruct (report_inv body now c); simpl; try (split; assumption).
  apply limit_size_ok.
  - apply JSMapFacts.wf_set. assumption.
  - etransitivity; [apply JSMapFacts.size_set_le|]. lia.
Qed.

Lemma empty_ok : cache_ok JSMap.empty.
Proof. split; [constructor|unfold JSMap.size; simpl; unfold MAX_STORED_INSTANCES; lia]. Qed.

Lemma run_reports_ok calls c : cache_ok c -> cache_ok (run_reports calls c).
Proof.
  unfold run_reports. revert c.
  induction calls as [|[body now] calls IH]; simpl; intros c Hc; [assumption|].
  apply IH. apply report_ok. assumption.
Qed.

(** ** The sweep *)

Lemma sweep_loop_in now (l : list (string * Instance)) (m : Cache) e :
  In e (fold_left
          (fun m e => if sweep_test now (snd e) then JSMap.delete (fst e) m else m)
          l m) ->
  In e m /\ forall e', In e' l -> sweep_test now (snd e') = true -> fst e <> fst e'.
Proof.
  revert m. induction l as [|x l IH]; simpl; intros m Hin.
  - split; [assumption|intros ? []].
  - apply IH in Hin. destruct Hin as [Hin Hl].
    destruct (sweep_test now (snd x)) eqn:Hx.
    + apply JSMapFacts.in_delete in Hin. destruct Hin as [Hin Hne].
      split; [assumption|].
      intros e' [<-|He'] Ht; [assumption|apply Hl; assumption].
    + split; [assumption|].
      intros e' [<-|He'] Ht; [congruence|apply Hl; assumption].
Qed.

(** Whatever the map, the sweep only removes, and what it leaves fails the
    test. *)
Lemma sweep_in now (c : Cache) e :
  In e (sweep now c) -> In e c /\ sweep_test now (snd e) = false.
Proof.
  intros Hin. apply sweep_loop_in in Hin. destruct Hin as [Hin Hl].
  split; [assumption|].
  destruct (sweep_test now (snd e)) eqn:Ht; [|reflexivity].
  exfalso. apply (Hl e Hin Ht). reflexivity.
Qed.

Lemma delete_middle (V : Type) (a l : JSMap.t V) k v :
  ~ In k (JSMap.keys a) -> ~ In k (JSMap.keys l) ->
  JSMap.delete k (a ++ (k, v) :: l)%list = (a ++ l)%list.
Proof.
  intros Ha Hl. unfold JSMap.delete. rewrite filter_app. simpl.
  rewrite String.eqb_refl. simpl.
  f_equal; apply JSMapFacts.delete_absent; assumption.
Qed.

Definition kept (now : Z) (e : string * Instance) : bool :=
  negb (sweep_test now (snd e)).

Lemma sweep_loop_filter now (l pre : Cache) :
  JSMap.wf (pre ++ l)%list ->
  fold_left
    (fun m e => if sweep_test now (snd e) then JSMap.delete (fst e) m else m)
    l (filter (kept now) pre ++ l)%list
  = (filter (kept now) pre ++ filter (kept now) l)%list.
Proof.
  revert pre. induction l as [|[k d] l IH]; intros pre Hwf; simpl.
  - reflexivity.
  - assert (Hwf' : JSMap.wf ((pre ++ [(k, d)]) ++ l)%list)
      by (rewrite <- app_assoc; exact Hwf).
    specialize (IH _ Hwf'). rewrite filter_app in IH. simpl in IH.
    unfold JSMap.wf, JSMap.keys in Hwf. rewrite map_app in Hwf. simpl in Hwf.
    pose proof (NoDup_remove_2 _ _ _ Hwf) as Hnin.
    assert (Hk : kept now (k, d) = negb (sweep_test now d)) by reflexivity.
    rewrite Hk in *.
    destruct (sweep_test now d) eqn:Ht; simpl in *.
    + rewrite app_nil_r in IH. rewrite delete_middle; [exact IH| |].
      * intros Hin. apply Hnin. apply in_or_app. left.
        unfold JSMap.keys in Hin. apply in_map_iff in Hin.
        destruct Hin as [e [He Hin]]. apply filter_In in Hin.
        apply in_map_iff. exists e. tauto.
      * intros Hin. apply Hnin. apply in_or_app. right. exact Hin.
    + rewrite <- app_assoc in IH. simpl in IH. rewrite IH.
      rewrite <- app_assoc. reflexivity.
Qed.

Lemma sweep_filter now (c : Cache) :
  JSMap.wf c -> sweep now c = filter (kept now) c.
Proof.
  intros Hwf. unfold sweep, JSMap.entries.
  apply (sweep_loop_filter now c [] Hwf).
Qed.

Lemma sweep_ok now c : cache_ok c -> cache_ok (sweep now c).
Proof.
  intros [Hwf Hsz]. rewrite sweep_filter by assumption. split.
  - clear Hsz. unfold JSMap.wf, JSMap.keys in *.
    induction c as [|e c IH]; simpl; [constructor|].
    inversion Hwf as [|? ? Hnin Hr]; subst.
    destruct (kept now e); simpl; [|apply IH; assumption].
    constructor; [|apply IH; assumption].
    intros Hin. apply Hnin. apply in_map_iff in Hin.
    destruct Hin as [x [Hx Hin]]. apply filter_In in Hin.
    apply in_map_iff. exists x. tauto.
  - unfold JSMap.size in *.
    pose proof (filter_length_le (kept now) c). lia.
Qed.

Lemma delete_instance_ok id c : cache_ok c -> cache_ok (snd (delete_instance id c)).
Proof.
  intros [Hwf Hsz]. unfold delete_instance.
  destruct (find_instance id (JSMap.entries c)); simpl; [|split; assumption].
  split; [apply JSMapFacts.wf_delete; assumption|].
  pose proof (JSMapFacts.size_delete_le s c). lia.
Qed.

(** Every state the server reaches from the empty map satisfies [cache_ok]. *)
Lemma run_ok calls c : cache_ok c -> cache_ok (run calls c).
Proof.
  unfold run. revert c.
  induction calls as [|[call now] calls IH]; simpl; intros c Hc; [assumption|].
  apply IH. unfold step. simpl. destruct call.
  - apply report_ok. assumption.
  - apply sweep_ok. assumption.
  - apply delete_instance_ok. assumption.
Qed.

Lemma report_admitted body now c key inst :
  admitted body now = Some (key, inst) ->
  report body now c = (resp_stored key, limit_size (JSMap.set key inst c)).
Proof.
  unfold admitted, report.
  destruct (body_placeId body) as [p|]; [|discriminate].
  destruct (body_gameInstanceId body) as [g|]; [|discriminate].
  destruct (body_animalData body) as [a|]; [|discriminate].
  destruct (missing_required body); [discriminate|].
  destruct (js_lt (value a) 3000000); [discriminate|].
  intros H. injection H as <- <-. reflexivity.
Qed.

Lemma report_not_admitted body now c :
  admitted body now = None -> snd (report body now c) = c.
Proof.
  unfold admitted, report.
  destruct (missing_required body) eqn:Hm; [reflexivity|].
  destruct (body_placeId body) as [p|]; [|reflexivity].
  destruct (body_gameInstanceId body) as [g|]; [|reflexivity].
  destruct (body_animalData body) as [a|]; [|reflexivity].
  destruct (js_lt (value a) 3000000); [reflexivity|discriminate].
Qed.

(** ** Arrays: [filter], [sort], [slice] *)

Section ArrayFacts.
Variable A : Type.
Variable cmp : A -> A -> option Z.

Lemma in_insert_sorted x y (l : list A) :
  In x (insert_sorted cmp y l) <-> x = y \/ In x l.
Proof.
  induction l as [|z r IH]; simpl.
  - intuition.
  - destruct (comes_first cmp y z); simpl; [intuition|].
    rewrite IH. intuition.
Qed.

Lemma in_array_sort x (l : list A) : In x (array_sort cmp l) <-> In x l.
Proof.
  induction l as [|y r IH]; simpl; [reflexivity|].
  rewrite in_insert_sorted, IH. intuition.
Qed.

Lemma insert_sorted_perm y (l : list A) :
  Permutation (insert_sorted cmp y l) (y :: l).
Proof.
  induction l as [|z r IH]; simpl; [apply Permutation_refl|].
  destruct (comes_first cmp y z); [apply Permutation_refl|].
  apply perm_trans with (z :: y :: r); [|apply perm_swap].
  apply perm_skip. exact IH.
Qed.

Lemma array_sort_perm (l : list A) : Permutation (array_sort cmp l) l.
Proof.
  induction l as [|y r IH]; simpl; [apply perm_nil|].
  apply perm_trans with (y :: array_sort cmp r);
    [apply insert_sorted_perm|apply perm_skip; exact IH].
Qed.

Lemma length_insert_sorted y (l : list A) :
  List.length (insert_sorted cmp y l) = S (List.length l).
Proof.
  induction l as [|z r IH]; simpl; [reflexivity|].
  destruct (comes_first cmp y z); simpl; [reflexivity|].
  rewrite IH. reflexivity.
Qed.

Lemma length_array_sort (l : list A) :
  List.length (array_sort cmp l) = List.length l.
Proof.
  induction l as [|y r IH]; simpl; [reflexivity|].
  rewrite length_insert_sorted, IH. reflexivity.
Qed.

End ArrayFacts.

Section SliceFacts.
Variable A : Type.

Lemma slice0_nonneg (end_ : Z) (l : list A) :
  0 <= end_ -> slice0 end_ l = firstn (Z.to_nat end_) l.
Proof.
  intros H. unfold slice0.
  destruct (Z.ltb_spec end_ 0); [lia|].
  destruct (Z.le_ge_cases end_ (Z.of_nat (List.length l))) as [Hle|Hge].
  - rewrite Z.min_l by assumption. reflexivity.
  - rewrite Z.min_r by assumption. rewrite Nat2Z.id.
    rewrite firstn_all. symmetry. apply firstn_all2. lia.
Qed.

Lemma slice0_neg (end_ : Z) (l : list A) :
  end_ < 0 ->
  slice0 end_ l = firstn (List.length l - Z.to_nat (- end_)) l.
Proof.
  intros H. unfold slice0.
  destruct (Z.ltb_spec end_ 0); [|lia].
  f_equal. lia.
Qed.

Lemma in_slice0 x (end_ : Z) (l : list A) : In x (slice0 end_ l) -> In x l.
Proof.
  unfold slice0.
  generalize (Z.to_nat
    (if end_ <? 0 then Z.max (Z.of_nat (List.length l) + end_) 0
     else Z.min end_ (Z.of_nat (List.length l)))).
  intros n. revert l. induction n as [|n IH]; intros [|y r]; simpl; try tauto.
  intros [->|H]; [left; reflexivity|right; apply IH; assumption].
Qed.

Lemma length_slice0 (end_ : Z) (l : list A) :
  0 <= end_ -> Z.of_nat (List.length (slice0 end_ l)) <= end_.
Proof.
  intros H. rewrite slice0_nonneg by assumption.
  rewrite length_firstn. lia.
Qed.
End SliceFacts.

Lemma StronglySorted_firstn (A : Type) (R : A -> A -> Prop) n (l : list A) :
  StronglySorted R l -> StronglySorted R (firstn n l).
Proof.
  revert l. induction n as [|n IH]; intros [|x r] Hs; simpl; try constructor.
  - apply IH. inversion Hs; assumption.
  - inversion Hs as [|? ? ? Hall]; subst.
    rewrite Forall_forall in *. intros y Hy. apply Hall.
    revert Hy. clear. revert r. induction n as [|n IH]; intros [|z r]; simpl; try tauto.
    intros [->|H]; [left; reflexivity|right; apply IH; assumption].
Qed.

Lemma value_ge_trans a b c : value_ge a b -> value_ge b c -> value_ge a c.
Proof.
  unfold value_ge.
  destruct (value (animalData a)), (value (animalData b)), (value (animalData c));
    try tauto; lia.
Qed.

Lemma insert_by_value_sorted x (l : list Instance) :
  has_value x -> Forall has_value l ->
  StronglySorted value_ge l ->
  StronglySorted value_ge (insert_sorted by_value_desc x l).
Proof.
  intros [vx Hx] Hall Hs. induction l as [|y r IH]; simpl.
  - constructor; constructor.
  - inversion Hall as [|? ? [vy Hy] Hall']; subst.
    inversion Hs as [|? ? Hr Hyr]; subst.
    unfold comes_first, by_value_desc. rewrite Hx, Hy.
    destruct (Z.leb_spec (vy - vx) 0) as [Hle|Hgt].
    + constructor; [assumption|].
      assert (Hxy : value_ge x y) by (unfold value_ge; rewrite Hx, Hy; lia).
      constructor; [assumption|].
      rewrite Forall_forall in *. intros z Hz.
      apply value_ge_trans with y; [assumption|apply Hyr; assumption].
    + constructor; [apply IH; assumption|].
      rewrite Forall_forall in *. intros z Hz.
      apply in_insert_sorted in Hz. destruct Hz as [->|Hz].
      * unfold value_ge. rewrite Hx, Hy. lia.
      * apply Hyr. assumption.
Qed.

Lemma sort_by_value_sorted (l : list Instance) :
  Forall has_value l -> StronglySorted value_ge (array_sort by_value_desc l).
Proof.
  induction l as [|x r IH]; simpl; intros Hall; [constructor|].
  inversion Hall; subst.
  apply insert_by_value_sorted; [assumption| |apply IH; assumption].
  rewrite Forall_forall in *. intros z Hz.
  apply in_array_sort in Hz. auto.
Qed.

Lemma in_values (V : Type) (m : JSMap.t V) v :
  In v (JSMap.values m) <-> exists k, In (k, v) m.
Proof.
  unfold JSMap.values. rewrite in_map_iff. split.
  - intros [[k v'] [Hv Hin]]. simpl in Hv. subst. exists k. assumption.
  - intros [k Hin]. exists (k, v). split; [reflexivity|assumption].
Qed.

Lemma in_query i minValue limit c :
  In i (query minValue limit c) ->
  In i (JSMap.values c) /\ js_ge (value (animalData i)) minValue = true.
Proof.
  unfold query. intros H.
  apply in_slice0 in H. apply in_array_sort in H. apply filter_In in H.
  exact H.
Qed.

Lemma best_step_in l st i :
  fst (fold_left best_step l st) = Some i -> fst st = Some i \/ In i l.
Proof.
  revert st. induction l as [|x l IH]; simpl; intros st H; [left; assumption|].
  apply IH in H. destruct H as [H|H]; [|right; right; assumption].
  unfold best_step in H. destruct (value (animalData x)) as [v|]; [|left; assumption].
  destruct (v >? snd st); [|left; assumption].
  simpl in H. injection H as ->. right. left. reflexivity.
Qed.

Lemma best_scan_in c i : best_scan c = Some i -> In i (JSMap.values c).
Proof.
  unfold best_scan. intros H. apply best_step_in in H.
  destruct H as [H|H]; [discriminate|assumption].
Qed.

(** * The properties of the specification *)

(** ** Expiry *)

(** C1, as stated, fails: [query] and [best] read the map as it is.  An entry
    stored at clock 0 is still returned by both at clock 4000000, more than
    3600000 ms later, as long as no sweep has run; and an entry that its
    sender stamped with a later time is returned even right after a sweep. *)
Lemma C1_queries_return_expired_entries :
  (exists i,
     4000000 - lastUpdated i > INSTANCE_TTL
     /\ In i (query 3000000 50 old_cache)
     /\ best_scan old_cache = Some i)
  /\ (exists i,
     4000000 - lastUpdated i > INSTANCE_TTL
     /\ In i (query 3000000 50 (sweep 4000000 stamped_cache))
     /\ best_scan (sweep 4000000 stamped_cache) = Some i).
Proof.
  split; eexists; (split; [|split; [left; reflexivity|reflexivity]]);
    vm_compute; reflexivity.
Qed.

(** C1, amended: [query] and [best] apply no expiry test of their own; in the
    map left by a sweep tick at clock [now], every entry that [query] or
    [best] returns has [now - timestamp * 1000 <= 3600000], where [timestamp]
    is the stored report time in seconds. *)
Theorem C1_no_swept_entry_is_returned now minValue limit c i :
  In i (query minValue limit (sweep now c)) \/ best_scan (sweep now c) = Some i ->
  now - timestamp i * 1000 <= INSTANCE_TTL.
Proof.
  intros H.
  assert (Hin : In i (JSMap.values (sweep now c))).
  { destruct H as [H|H]; [apply in_query in H; tauto|apply best_scan_in; assumption]. }
  apply in_values in Hin. destruct Hin as [k Hin].
  apply sweep_in in Hin. destruct Hin as [_ Ht].
  unfold sweep_test in Ht. simpl in Ht. lia.
Qed.

Lemma C1_no_swept_entry_is_returned_witness :
  let i := make_instance "P1" "I1" (dog 5000000) (Some 5000) None 0 in
  (In i (query 3000000 50 (sweep 4000000 stamped_cache))
   \/ best_scan (sweep 4000000 stamped_cache) = Some i)
  /\ 4000000 - timestamp i * 1000 <= INSTANCE_TTL.
Proof.
  assert (H : In (make_instance "P1" "I1" (dog 5000000) (Some 5000) None 0)
                (query 3000000 50 (sweep 4000000 stamped_cache)))
    by (vm_compute; left; reflexivity).
  split; [left; exact H|].
  apply (@C1_no_swept_entry_is_returned 4000000 3000000 50 stamped_cache).
  left. exact H.
Defined.

(** C2, as stated, fails: the sweep does not look at [lastUpdated], the time
    the cache received the report.  At clock 4000000 the entry received at
    clock 0 (stamped 5000 s by its sender) stays, and the entry received at
    clock 3999000 (stamped 1 s) goes. *)
Lemma C2_sweep_ignores_lastUpdated :
  exists e1 e2,
    stamped_cache = [e1; e2]
    /\ 4000000 - lastUpdated (snd e1) > INSTANCE_TTL
    /\ In e1 (sweep 4000000 stamped_cache)
    /\ 4000000 - lastUpdated (snd e2) <= INSTANCE_TTL
    /\ ~ In e2 (sweep 4000000 stamped_cache).
Proof.
  do 2 eexists. split; [vm_compute; reflexivity|].
  split; [vm_compute; reflexivity|].
  split; [vm_compute; left; reflexivity|].
  split; [vm_compute; discriminate|].
  vm_compute. intros [H|[]]. discriminate H.
Qed.

(** C2, amended: one tick of the sweep at clock [now] removes exactly the
    entries whose stored [timestamp] (seconds: the sender's [timestamp] when
    the report carried a non-zero one, else the clock at upsert divided by
    1000) satisfies [now - timestamp * 1000 > 3600000]; all other entries stay,
    unchanged and in the same order. *)
Theorem C2_sweep_removes_by_timestamp now (c : Cache) :
  JSMap.wf c ->
  sweep now c
  = filter (fun e => now - timestamp (snd e) * 1000 <=? INSTANCE_TTL) c
  /\ forall k d,
       In (k, d) (sweep now c)
       <-> In (k, d) c /\ ~ now - timestamp d * 1000 > INSTANCE_TTL.
Proof.
  intros Hwf.
  assert (Heq : sweep now c
    = filter (fun e => now - timestamp (snd e) * 1000 <=? INSTANCE_TTL) c).
  { rewrite sweep_filter by assumption. apply filter_ext.
    intros e. unfold kept, sweep_test.
    destruct (Z.leb_spec (now - timestamp (snd e) * 1000) INSTANCE_TTL);
      destruct (Z.gtb_spec (now - timestamp (snd e) * 1000) INSTANCE_TTL);
      simpl; try reflexivity; lia. }
  split; [exact Heq|].
  intros k d. rewrite Heq, filter_In. simpl.
  destruct (Z.leb_spec (now - timestamp d * 1000) INSTANCE_TTL); intuition (try lia; try discriminate).
Qed.

Lemma C2_sweep_removes_by_timestamp_witness :
  sweep 4000000 stamped_cache
  = filter (fun e => 4000000 - timestamp (snd e) * 1000 <=? INSTANCE_TTL)
      stamped_cache
  /\ forall k d,
       In (k, d) (sweep 4000000 stamped_cache)
       <-> In (k, d) stamped_cache
           /\ ~ 4000000 - timestamp d * 1000 > INSTANCE_TTL.
Proof.
  apply (@C2_sweep_removes_by_timestamp 4000000 stamped_cache).
  unfold JSMap.wf. vm_compute.
  repeat constructor; simpl; intuition discriminate.
Defined.

(** ** Capacity *)

(** C3: from the empty map, after any sequence of [report] calls the map
    holds at most 100 entries, and so it does after one more call; when the
    [set] of that call takes the map over 100 entries, the entry removed is
    the first of the map in insertion order, whatever the time stamps, and
    the rest stays as it is. *)
Theorem C3_capacity_and_eviction
    (calls : list (ReportBody * Z)) (body : ReportBody) (now : Z) :
  let c := run_reports calls JSMap.empty in
  let c' := snd (report body now c) in
  (JSMap.size c <= 100)%nat
  /\ (JSMap.size c' <= 100)%nat
  /\ forall key inst,
       admitted body now = Some (key, inst) ->
       let m := JSMap.set key inst c in
       if (100 <? JSMap.size m)%nat
       then exists oldest, m = oldest :: c'
       else c' = m.
Proof.
  intros c c'.
  assert (Hc : cache_ok c) by (apply run_reports_ok, empty_ok).
  assert (Hc' : cache_ok c') by (apply report_ok; assumption).
  split; [apply Hc|]. split; [apply Hc'|].
  intros key inst Hadm m. subst c'.
  rewrite (@report_admitted body now c key inst Hadm). simpl. fold m.
  assert (Hwf : JSMap.wf m) by (apply JSMapFacts.wf_set, Hc).
  destruct (Nat.ltb_spec 100 (JSMap.size m)) as [Hover|Hin].
  - rewrite limit_size_over by assumption.
    destruct m as [|e r]; [unfold JSMap.size in Hover; simpl in Hover; lia|].
    exists e. reflexivity.
  - apply limit_size_within. assumption.
Qed.

Lemma C3_capacity_and_eviction_witness :
  let c := run_reports refreshed_calls JSMap.empty in
  let body := sample_body (place_name 101) "I" 4000000 in
  let c' := snd (report body 201000 c) in
  (JSMap.size c' <= 100)%nat
  /\ JSMap.first_key c = Some "1_I"
  /\ option_map lastUpdated (JSMap.get "1_I" c) = Some 200000
  /\ JSMap.get "1_I" c' = None
  /\ exists oldest,
       JSMap.set "101_I" (make_instance "101" "I" (dog 4000000) None None 201000) c
       = oldest :: c'.
Proof.
  pose proof (C3_capacity_and_eviction refreshed_calls
                (sample_body (place_name 101) "I" 4000000) 201000) as H.
  cbv zeta in H. destruct H as [_ [Hsize Hevict]].
  specialize (Hevict "101_I"
                (make_instance "101" "I" (dog 4000000) None None 201000)
                eq_refl).
  cbv zeta in Hevict.
  replace (100 <? JSMap.size
             (JSMap.set "101_I"
                (make_instance "101" "I" (dog 4000000) None None 201000)
                (run_reports refreshed_calls JSMap.empty)))%nat
    with true in Hevict by (vm_compute; reflexivity).
  cbv zeta. split; [exact Hsize|].
  split; [vm_compute; reflexivity|].
  split; [vm_compute; reflexivity|].
  split; [vm_compute; reflexivity|exact Hevict].
Defined.

(** ** Validation and admission *)

Lemma falsy_string_field (o : option string) :
  truthy o = false <-> o = None \/ o = Some "".
Proof.
  destruct o as [s|]; simpl.
  - unfold truthy, Truthy_option, truthy, Truthy_string.
    destruct (String.eqb_spec s ""); simpl; split.
    + intros _. right. congruence.
    + reflexivity.
    + discriminate.
    + intros [H|H]; congruence.
  - split; [intros _; left|]; reflexivity.
Qed.

Lemma falsy_object_field (o : option AnimalData) :
  truthy o = false <-> o = None.
Proof.
  destruct o as [a|]; simpl; split; try reflexivity; discriminate.
Qed.

Lemma missing_required_iff body :
  missing_required body = true <->
  body_placeId body = None \/ body_placeId body = Some ""
  \/ body_gameInstanceId body = None \/ body_gameInstanceId body = Some ""
  \/ body_animalData body = None.
Proof.
  unfold missing_required.
  rewrite !orb_true_iff, !negb_true_iff.
  rewrite !falsy_string_field, falsy_object_field. tauto.
Qed.

(** C5, as stated, fails in the direction from a missing [value] to a
    validation error: a report whose [animalData] has no [value], or is the
    empty object, is answered with status 200 and is stored. *)
Lemma C5_missing_value_is_not_rejected :
  (body_animalData no_value_body <> None
   /\ option_map value (body_animalData no_value_body) = Some None
   /\ fst (report no_value_body 1000 JSMap.empty) = resp_stored "P1_I1"
   /\ JSMap.size (snd (report no_value_body 1000 JSMap.empty)) = 1%nat)
  /\ (fst (report empty_animal_body 1000 JSMap.empty) = resp_stored "P1_I1"
      /\ JSMap.size (snd (report empty_animal_body 1000 JSMap.empty)) = 1%nat).
Proof.
  repeat split; try reflexivity. discriminate.
Qed.

(** C5, amended: [report] answers with the validation error (status 400,
    "Missing required fields") if and only if [placeId], [gameInstanceId] or
    [animalData] is absent or [placeId] or [gameInstanceId] is the empty
    string; [animalData.value] is not looked at by the validation.  In every
    such case the map is unchanged. *)
Theorem C5_validation_error_iff body now (c : Cache) :
  (status (fst (report body now c)) = 400 <->
     body_placeId body = None \/ body_placeId body = Some ""
     \/ body_gameInstanceId body = None \/ body_gameInstanceId body = Some ""
     \/ body_animalData body = None)
  /\ (status (fst (report body now c)) = 400 ->
      report body now c = (resp_missing_fields, c)).
Proof.
  rewrite <- missing_required_iff.
  destruct (report_inv body now c) as [Hm|p g a _ _ _ Hm _|p g a _ _ _ Hm _];
    simpl; split; try (intros; reflexivity); try (intros; discriminate);
    split; intros H; try assumption; try reflexivity; try discriminate;
    congruence.
Qed.

Lemma C5_validation_error_iff_witness :
  report {| body_placeId := Some ""; body_gameInstanceId := Some "I1";
            body_animalData := Some (dog 5000000);
            body_timestamp := None; body_source := None |} 1000 old_cache
  = (resp_missing_fields, old_cache).
Proof.
  apply (C5_validation_error_iff
           {| body_placeId := Some ""; body_gameInstanceId := Some "I1";
              body_animalData := Some (dog 5000000);
              body_timestamp := None; body_source := None |} 1000 old_cache).
  reflexivity.
Defined.

Lemma get_after_limit (c : Cache) key inst :
  cache_ok c -> JSMap.get key (limit_size (JSMap.set key inst c)) = Some inst.
Proof.
  intros [Hwf Hsz].
  destruct (Nat.ltb_spec MAX_STORED_INSTANCES (JSMap.size (JSMap.set key inst c)))
    as [Hover|Hin].
  - rewrite limit_size_over; [|apply JSMapFacts.wf_set; assumption|assumption].
    destruct c as [|[k0 v0] r].
    + unfold JSMap.size, MAX_STORED_INSTANCES in Hover. simpl in Hover. lia.
    + revert Hover. simpl.
      destruct (String.eqb_spec key k0) as [->|Hne]; intros Hover.
      * unfold JSMap.size in *. simpl in *. lia.
      * simpl. apply JSMapFacts.get_set_same.
  - rewrite limit_size_within by assumption. apply JSMapFacts.get_set_same.
Qed.

Lemma make_instance_eta p g a ts src now :
  make_instance p g a ts src now
  = {| placeId := p; gameInstanceId := g; animalData := a;
       timestamp := js_or ts (now / 1000); source := js_or src "unknown";
       lastUpdated := now |}.
Proof. destruct a. reflexivity. Qed.

(** C6: a report with non-empty [placeId] and [gameInstanceId] and a numeric
    [animalData.value] below 3000000 is answered with status 200,
    [success: true] and the message "Value too low, not stored", leaves the
    map as it was, hence every later answer of [/api/instances] and
    [/api/best] too; with a value of 3000000 or more it is answered with the
    stored key, and the map then holds the new record under that key. *)
Theorem C6_admission_threshold body now (c : Cache) p g a v :
  cache_ok c ->
  body_placeId body = Some p -> p <> "" ->
  body_gameInstanceId body = Some g -> g <> "" ->
  body_animalData body = Some a -> value a = Some v ->
  (v < 3000000 ->
     report body now c = (resp_value_too_low, c)
     /\ (forall q now', instances q now' (snd (report body now c))
                        = instances q now' c)
     /\ (forall now', best now' (snd (report body now c)) = best now' c))
  /\ (3000000 <= v ->
     fst (report body now c) = resp_stored (make_key p g)
     /\ JSMap.get (make_key p g) (snd (report body now c))
        = Some {| placeId := p; gameInstanceId := g; animalData := a;
                  timestamp := js_or (body_timestamp body) (now / 1000);
                  source := js_or (body_source body) "unknown";
                  lastUpdated := now |}).
Proof.
  intros Hok Hp Hpne Hg Hgne Ha Hv.
  assert (Hm : missing_required body = false).
  { destruct (missing_required body) eqn:E; [|reflexivity].
    apply missing_required_iff in E.
    destruct E as [E|[E|[E|[E|E]]]]; congruence. }
  split; intros Hcmp.
  - assert (Hr : report body now c = (resp_value_too_low, c)).
    { unfold report. rewrite Hm, Hp, Hg, Ha, Hv. simpl.
      destruct (Z.ltb_spec v 3000000); [reflexivity|lia]. }
    rewrite Hr. simpl. repeat split; reflexivity.
  - assert (Hadm : admitted body now
                   = Some (make_key p g,
                           make_instance p g a (body_timestamp body)
                             (body_source body) now)).
    { unfold admitted. rewrite Hm, Hp, Hg, Ha, Hv. simpl.
      destruct (Z.ltb_spec v 3000000); [lia|reflexivity]. }
    rewrite (@report_admitted body now c _ _ Hadm). simpl.
    split; [reflexivity|].
    rewrite get_after_limit by assumption.
    rewrite make_instance_eta. reflexivity.
Qed.

Lemma C6_admission_threshold_witness :
  report (sample_body "P2" "I2" 1000000) 2000 old_cache
  = (resp_value_too_low, old_cache)
  /\ fst (report (sample_body "P2" "I2" 3000000) 2000 old_cache)
     = resp_stored "P2_I2"
  /\ JSMap.get "P2_I2" (snd (report (sample_body "P2" "I2" 3000000) 2000 old_cache))
     = Some {| placeId := "P2"; gameInstanceId := "I2";
               animalData := dog 3000000; timestamp := 2;
               source := "unknown"; lastUpdated := 2000 |}.
Proof.
  assert (Hok : cache_ok old_cache).
  { split; [|vm_compute; repeat constructor].
    unfold JSMap.wf. vm_compute. repeat constructor. intros []. }
  split.
  - apply (@C6_admission_threshold (sample_body "P2" "I2" 1000000) 2000
             old_cache "P2" "I2" (dog 1000000) 1000000 Hok
             eq_refl ltac:(discriminate) eq_refl ltac:(discriminate)
             eq_refl eq_refl).
    reflexivity.
  - apply (@C6_admission_threshold (sample_body "P2" "I2" 3000000) 2000
             old_cache "P2" "I2" (dog 3000000) 3000000 Hok
             eq_refl ltac:(discriminate) eq_refl ltac:(discriminate)
             eq_refl eq_refl).
    discriminate.
Defined.

(** ** Identity and upsert *)

(** C9: when two reports with the same [placeId] and [gameInstanceId] are
    both stored (any calls in between), the map afterwards holds exactly one
    entry under their key, and that entry is the record of the second call:
    its [animalData], its [timestamp] and [source] (or their defaults), and
    [lastUpdated] set to the clock of the second call. *)
Theorem C9_second_report_replaces
    (c : Cache) b1 n1 (mid : list (Call * Z)) b2 n2 p g a2 :
  cache_ok c ->
  body_placeId b1 = Some p -> body_gameInstanceId b1 = Some g ->
  body_placeId b2 = Some p -> body_gameInstanceId b2 = Some g ->
  body_animalData b2 = Some a2 ->
  instanceId (fst (report b1 n1 c)) <> None ->
  let c1 := run mid (snd (report b1 n1 c)) in
  instanceId (fst (report b2 n2 c1)) <> None ->
  let c2 := snd (report b2 n2 c1) in
  JSMap.bound_to (make_key p g) c2
  = [(make_key p g,
      {| placeId := p; gameInstanceId := g; animalData := a2;
         timestamp := js_or (body_timestamp b2) (n2 / 1000);
         source := js_or (body_source b2) "unknown";
         lastUpdated := n2 |})].
Proof.
  intros Hok _ _ Hp Hg Ha _ c1 Hstored c2.
  assert (Hok1 : cache_ok c1) by (apply run_ok, report_ok; assumption).
  assert (Hok2 : cache_ok c2) by (apply report_ok; assumption).
  subst c2. revert Hstored Hok2.
  destruct (report_inv b2 n2 c1) as [Hm|p' g' a' Hp' Hg' Ha' Hm Hlt|p' g' a' Hp' Hg' Ha' Hm Hlt];
    simpl; intros Hstored Hok2; try congruence.
  assert (p' = p) by congruence. assert (g' = g) by congruence.
  assert (a' = a2) by congruence. subst p' g' a'.
  apply JSMapFacts.bound_to_get; [apply Hok2|].
  rewrite get_after_limit by assumption.
  rewrite make_instance_eta. reflexivity.
Qed.

Lemma C9_second_report_replaces_witness :
  JSMap.bound_to "P1_I1"
    (snd (report (stamped_body "P1" "I1" 7000000 42) 9000
            (run [(CallReport (sample_body "P2" "I2" 4000000), 5000)]
               (snd (report (sample_body "P1" "I1" 5000000) 1000 JSMap.empty)))))
  = [("P1_I1",
      {| placeId := "P1"; gameInstanceId := "I1"; animalData := dog 7000000;
         timestamp := 42; source := "unknown"; lastUpdated := 9000 |})].
Proof.
  apply (@C9_second_report_replaces JSMap.empty
           (sample_body "P1" "I1" 5000000) 1000
           [(CallReport (sample_body "P2" "I2" 4000000), 5000)]
           (stamped_body "P1" "I1" 7000000 42) 9000
           "P1" "I1" (dog 7000000) empty_ok
           eq_refl eq_refl eq_refl eq_refl eq_refl);
    vm_compute; discriminate.
Defined.

(** The key is unambiguous as long as no [placeId] contains the separator. *)
Lemma make_key_injective p1 g1 p2 g2 :
  has_underscore p1 = false -> has_underscore p2 = false ->
  make_key p1 g1 = make_key p2 g2 -> p1 = p2 /\ g1 = g2.
Proof.
  unfold make_key. revert p2.
  induction p1 as [|c1 p1 IH]; intros [|c2 p2]; simpl; intros H1 H2 Heq.
  - injection Heq as ->. split; reflexivity.
  - injection Heq as <- _.
    destruct (Ascii.eqb_spec "_"%char "_"%char); [discriminate|congruence].
  - injection Heq as -> _.
    destruct (Ascii.eqb_spec "_"%char "_"%char); [discriminate|congruence].
  - injection Heq as -> Heq.
    destruct (Ascii.eqb c2 "_"%char); [discriminate|].
    destruct (IH p2 H1 H2 Heq) as [-> ->]. split; reflexivity.
Qed.

(** C4: the key does not separate every two pairs.  The pairs ("a_b", "c")
    and ("a", "b_c") differ and get the same key "a_b_c"; reporting the
    second replaces the entry of the first, which no query finds any more. *)
Theorem C4_distinct_pairs_share_a_key :
  ("a_b", "c") <> ("a", "b_c")
  /\ make_key "a_b" "c" = make_key "a" "b_c"
  /\ let c := run_reports [(sample_body "a_b" "c" 5000000, 1000);
                           (sample_body "a" "b_c" 7000000, 2000)] JSMap.empty in
     JSMap.size c = 1%nat
     /\ map (fun i => (placeId i, gameInstanceId i)) (query 3000000 50 c)
        = [("a", "b_c")].
Proof.
  split; [discriminate|]. split; [reflexivity|].
  cbv zeta. split; vm_compute; reflexivity.
Qed.

(** ** The best instance *)

Lemma best_step_inv seen st x :
  best_inv seen st -> best_inv (seen ++ [x]) (best_step st x).
Proof.
  destruct st as [[i|] bv]; unfold best_inv, best_step; simpl.
  - intros [pre [post [Hseen [Hi [Hpos [Hpre Hpost]]]]]].
    destruct (value (animalData x)) as [v|] eqn:Hv; simpl.
    + destruct (Z.gtb_spec v bv) as [Hgt|Hle]; simpl.
      * exists seen, []. repeat split; try assumption; try lia.
        -- intros y w Hy Hw. subst seen. apply in_app_or in Hy.
           destruct Hy as [Hy|[<-|Hy]].
           ++ specialize (Hpre y w Hy Hw). lia.
           ++ assert (w = bv) by congruence. lia.
           ++ specialize (Hpost y w Hy Hw). lia.
        -- intros y w [].
      * exists pre, (post ++ [x])%list. subst seen.
        rewrite <- app_assoc. simpl. repeat split; try assumption.
        intros y w Hy Hw. apply in_app_or in Hy. destruct Hy as [Hy|[<-|[]]].
        -- apply (Hpost y w Hy Hw).
        -- assert (w = v) by congruence. lia.
    + exists pre, (post ++ [x])%list. subst seen.
      rewrite <- app_assoc. simpl. repeat split; try assumption.
      intros y w Hy Hw. apply in_app_or in Hy. destruct Hy as [Hy|[<-|[]]].
      * apply (Hpost y w Hy Hw).
      * congruence.
  - intros [-> Hall].
    destruct (value (animalData x)) as [v|] eqn:Hv; simpl.
    + destruct (Z.gtb_spec v 0) as [Hgt|Hle]; simpl.
      * exists seen, []. repeat split; try assumption; try lia.
        -- intros y w Hy Hw. specialize (Hall y w Hy Hw). lia.
        -- intros y w [].
      * split; [reflexivity|].
        intros y w Hy Hw. apply in_app_or in Hy. destruct Hy as [Hy|[<-|[]]].
        -- apply (Hall y w Hy Hw).
        -- assert (w = v) by congruence. lia.
    + split; [reflexivity|].
      intros y w Hy Hw. apply in_app_or in Hy. destruct Hy as [Hy|[<-|[]]].
      * apply (Hall y w Hy Hw).
      * congruence.
Qed.

Lemma best_loop_inv l seen st :
  best_inv seen st -> best_inv (seen ++ l) (fold_left best_step l st).
Proof.
  revert seen st. induction l as [|x l IH]; simpl; intros seen st H.
  - rewrite app_nil_r. assumption.
  - replace (seen ++ x :: l)%list with ((seen ++ [x]) ++ l)%list
      by (rewrite <- app_assoc; reflexivity).
    apply IH. apply best_step_inv. assumption.
Qed.

Lemma best_scan_inv (c : Cache) :
  best_inv (JSMap.values c) (fold_left best_step (JSMap.values c) (None, 0)).
Proof.
  apply (best_loop_inv (JSMap.values c) [] (None, 0)).
  split; [reflexivity|intros x v []].
Qed.

(** C7, as stated, fails twice.  The map that holds the one report without
    [value], received one second ago (1000 ms, by [lastUpdated] and by
    [timestamp]), is not empty, yet [best] answers null; and the map whose one entry was
    received more than 3600000 ms ago is empty once expired entries are left
    out, yet [best] answers with that entry. *)
Lemma C7_best_null_and_expiry :
  (JSMap.size no_value_cache = 1%nat
   /\ map (fun i => (2000 - lastUpdated i, 2000 - timestamp i * 1000))
        (JSMap.values no_value_cache) = [(1000, 1000)]
   /\ best_instance (best 2000 no_value_cache) = None)
  /\ (filter (fun i => 4000000 - lastUpdated i <=? INSTANCE_TTL)
        (JSMap.values old_cache) = []
      /\ best_instance (best 4000000 old_cache) <> None).
Proof.
  split; [repeat split; reflexivity|split; [reflexivity|]].
  vm_compute. discriminate.
Qed.

(** C7, amended: [best] leaves no entry out on account of its age, and it
    answers null exactly when no entry of the map has a value greater than 0
    (so for the empty map); otherwise it answers with the entry of greatest
    value among all entries of the map, and among entries of that value with
    the first one in the order of the map, every entry before it having a
    strictly smaller value. *)
Theorem C7_best_is_first_maximum now (c : Cache) :
  best_instance (best now c) = option_map (project now) (best_scan c)
  /\ (best_instance (best now c) = None <->
      forall i v, In i (JSMap.values c) -> value (animalData i) = Some v -> v <= 0)
  /\ forall i,
       best_scan c = Some i ->
       exists pre post v,
         JSMap.values c = (pre ++ i :: post)%list
         /\ value (animalData i) = Some v /\ 0 < v
         /\ (forall x w, In x pre -> value (animalData x) = Some w -> w < v)
         /\ (forall x w, In x post -> value (animalData x) = Some w -> w <= v).
Proof.
  assert (Hresp : best_instance (best now c)
                  = option_map (project now) (best_scan c)).
  { unfold best. destruct c as [|e r]; reflexivity. }
  pose proof (best_scan_inv c) as Hinv. unfold best_inv in Hinv.
  split; [exact Hresp|]. rewrite Hresp. unfold best_scan.
  destruct (fold_left best_step (JSMap.values c) (None, 0)) as [[b|] bv];
    simpl in *.
  - destruct Hinv as [pre [post [Hseen [Hb [Hpos [Hpre Hpost]]]]]].
    split.
    + split; [discriminate|]. intros Hall. exfalso.
      assert (Hin : In b (JSMap.values c))
        by (rewrite Hseen; apply in_or_app; right; left; reflexivity).
      specialize (Hall b bv Hin Hb). lia.
    + intros i Hi. injection Hi as <-.
      exists pre, post, bv. repeat split; assumption.
  - destruct Hinv as [_ Hall]. split.
    + split; [intros _; exact Hall|reflexivity].
    + intros i Hi. discriminate.
Qed.

Lemma C7_best_is_first_maximum_witness :
  best_instance (best 4000000 stamped_cache)
  = Some (project 4000000
            (make_instance "P2" "I2" (dog 6000000) (Some 1) None 3999000))
  /\ exists pre post v,
       JSMap.values stamped_cache
       = (pre ++ make_instance "P2" "I2" (dog 6000000) (Some 1) None 3999000
              :: post)%list
       /\ value (dog 6000000) = Some v /\ 0 < v
       /\ (forall x w, In x pre -> value (animalData x) = Some w -> w < v)
       /\ (forall x w, In x post -> value (animalData x) = Some w -> w <= v).
Proof.
  destruct (C7_best_is_first_maximum 4000000 stamped_cache) as [Hresp [_ Hmax]].
  split; [rewrite Hresp; reflexivity|].
  apply (Hmax (make_instance "P2" "I2" (dog 6000000) (Some 1) None 3999000)).
  reflexivity.
Defined.

(** ** The list of instances *)

(** C8, as stated, fails for a negative [limit], which [parseInt] lets
    through: [slice(0, -1)] drops the last element, so two matching entries
    give a sequence of length 1, which is more than -1. *)
Lemma C8_negative_limit :
  parseInt_param (Some "-1") = Some (-1)
  /\ instances_count
       (instances {| query_minValue := None; query_limit := Some "-1" |}
          4000000 stamped_cache) = 1%nat
  /\ ~ Z.of_nat (List.length (query 3000000 (-1) stamped_cache)) <= -1.
Proof.
  split; [reflexivity|]. split; [reflexivity|].
  vm_compute. intros H. apply H. reflexivity.
Qed.

(** C8, amended: the sequence of [query] holds only entries with
    [value >= minValue] and is in non-increasing order of value; for
    [limit >= 0] it is the first [limit] elements of the sorted sequence of
    all matching entries, so its length is at most [limit]; for [limit < 0]
    it is that sorted sequence without its last [-limit] elements. *)
Theorem C8_query_filtered_sorted_cut minValue limit (c : Cache) :
  let matching :=
    filter (fun i => js_ge (value (animalData i)) minValue) (JSMap.values c) in
  let whole := array_sort by_value_desc matching in
  let r := query minValue limit c in
  Permutation whole matching
  /\ StronglySorted value_ge whole
  /\ Forall (fun i => exists v, value (animalData i) = Some v /\ minValue <= v) r
  /\ StronglySorted value_ge r
  /\ (0 <= limit ->
      r = firstn (Z.to_nat limit) whole /\ Z.of_nat (List.length r) <= limit)
  /\ (limit < 0 ->
      r = firstn (List.length whole - Z.to_nat (- limit)) whole).
Proof.
  intros matching whole r.
  assert (Hsorted : StronglySorted value_ge whole).
  { apply sort_by_value_sorted. apply Forall_forall.
    intros i Hi. apply filter_In in Hi. destruct Hi as [_ Hge].
    unfold js_ge in Hge.
    destruct (value (animalData i)) as [v|] eqn:Hv; [|discriminate].
    exists v. assumption. }
  split; [apply array_sort_perm|]. split; [exact Hsorted|]. split; [|split].
  - apply Forall_forall. intros i Hi. apply in_query in Hi.
    destruct Hi as [_ Hge]. unfold js_ge in Hge.
    destruct (value (animalData i)) as [v|]; [|discriminate].
    exists v. split; [reflexivity|lia].
  - unfold r, query, slice0. apply StronglySorted_firstn. exact Hsorted.
  - unfold r, query. fold matching. fold whole. split; intros Hl.
    + split; [apply slice0_nonneg; assumption|apply length_slice0; assumption].
    + apply slice0_neg. assumption.
Qed.

Lemma C8_query_filtered_sorted_cut_witness :
  map (fun i => value (animalData i)) (query 3000000 1 stamped_cache)
  = [Some 6000000]
  /\ query 3000000 1 stamped_cache
     = firstn 1
         (array_sort by_value_desc
            (filter (fun i => js_ge (value (animalData i)) 3000000)
               (JSMap.values stamped_cache)))
  /\ Z.of_nat (List.length (query 3000000 1 stamped_cache)) <= 1.
Proof.
  split; [reflexivity|].
  apply (C8_query_filtered_sorted_cut 3000000 1 stamped_cache).
  discriminate.
Defined.

(** C10: at [/api/instances], a [minValue] that [parseInt] reads as 0 or
    does not read as a number gives the answer of a request without
    [minValue], computed with 3000000; a [limit] read as 0 or not read gives
    the answer of a request without [limit], computed with 50.
    [minValue=0] is such a request. *)
Theorem C10_zero_or_unparsed_is_default (mv lim : option string) now (c : Cache) :
  (parseInt_param mv = None \/ parseInt_param mv = Some 0 ->
     instances {| query_minValue := mv; query_limit := lim |} now c
     = instances {| query_minValue := None; query_limit := lim |} now c
     /\ instances_list
          (instances {| query_minValue := mv; query_limit := lim |} now c)
        = map (project now)
            (query 3000000 (js_or (parseInt_param lim) 50) c))
  /\ (parseInt_param lim = None \/ parseInt_param lim = Some 0 ->
     instances {| query_minValue := mv; query_limit := lim |} now c
     = instances {| query_minValue := mv; query_limit := None |} now c
     /\ instances_list
          (instances {| query_minValue := mv; query_limit := lim |} now c)
        = map (project now)
            (query (js_or (parseInt_param mv) 3000000) 50 c))
  /\ parseInt_param (Some "0") = Some 0.
Proof.
  assert (Hdef : forall (x : option Z) d,
             x = None \/ x = Some 0 -> js_or x d = d).
  { intros x d [->| ->]; reflexivity. }
  split; [|split; [|reflexivity]]; intros H; unfold instances; simpl;
    rewrite (Hdef _ _ H); split; reflexivity.
Qed.

Lemma C10_zero_or_unparsed_is_default_witness :
  instances {| query_minValue := Some "0"; query_limit := Some "abc" |}
    4000000 stamped_cache
  = instances {| query_minValue := None; query_limit := None |}
      4000000 stamped_cache
  /\ instances_list
       (instances {| query_minValue := Some "0"; query_limit := Some "abc" |}
          4000000 stamped_cache)
     = map (project 4000000) (query 3000000 50 stamped_cache).
Proof.
  destruct (C10_zero_or_unparsed_is_default (Some "0") (Some "abc")
              4000000 stamped_cache) as [Hmv [_ _]].
  destruct (Hmv (or_intror eq_refl)) as [H1 H2].
  destruct (C10_zero_or_unparsed_is_default None (Some "abc")
              4000000 stamped_cache) as [_ [Hlim _]].
  destruct (Hlim (or_introl eq_refl)) as [H3 _].
  split; [rewrite H1; exact H3|].
  rewrite H2. reflexivity.
Defined.

(** ** Deletion and the invariant over all calls *)

Lemma find_instance_some id (c : Cache) key :
  find_instance id c = Some key ->
  exists pre i post,
    c = (pre ++ (key, i) :: post)%list
    /\ gameInstanceId i = id
    /\ Forall (fun e => gameInstanceId (snd e) <> id) pre.
Proof.
  induction c as [|[k i] r IH]; simpl; [discriminate|].
  destruct (String.eqb_spec (gameInstanceId i) id) as [Heq|Hne].
  - intros H. injection H as <-.
    exists [], i, r. repeat split; [assumption|constructor].
  - intros H. destruct (IH H) as [pre [i' [post [-> [Hid Hpre]]]]].
    exists ((k, i) :: pre), i', post.
    repeat split; [assumption|constructor; assumption].
Qed.

Lemma find_instance_none id (c : Cache) :
  find_instance id c = None ->
  Forall (fun e => gameInstanceId (snd e) <> id) c.
Proof.
  induction c as [|[k i] r IH]; simpl; [constructor|].
  destruct (String.eqb_spec (gameInstanceId i) id) as [Heq|Hne];
    [discriminate|].
  intros H. constructor; [assumption|apply IH; assumption].
Qed.

(** X1: [DELETE /api/instance/:gameInstanceId] removes the first entry, in
    the order of the map, whose [gameInstanceId] is the given one, and no
    other entry; [deleted] is true exactly when there is such an entry. *)
Theorem X1_delete_first_match id (c : Cache) :
  JSMap.wf c ->
  (fst (delete_instance id c) = true <->
   exists e, In e c /\ gameInstanceId (snd e) = id)
  /\ (fst (delete_instance id c) = false -> snd (delete_instance id c) = c)
  /\ (fst (delete_instance id c) = true ->
      exists pre e post,
        c = (pre ++ e :: post)%list
        /\ gameInstanceId (snd e) = id
        /\ Forall (fun e' => gameInstanceId (snd e') <> id) pre
        /\ snd (delete_instance id c) = (pre ++ post)%list).
Proof.
  intros Hwf. unfold delete_instance, JSMap.entries.
  destruct (find_instance id c) as [key|] eqn:Hfind; simpl.
  - destruct (find_instance_some id c Hfind) as [pre [i [post [Hc [Hid Hpre]]]]].
    split; [|split; [discriminate|]].
    + split; [intros _|reflexivity].
      exists (key, i). split; [|assumption].
      rewrite Hc. apply in_or_app. right. left. reflexivity.
    + intros _. exists pre, (key, i), post.
      repeat split; try assumption.
      rewrite Hc. rewrite Hc in Hwf.
      unfold JSMap.wf, JSMap.keys in Hwf. rewrite map_app in Hwf.
      simpl in Hwf. apply NoDup_remove_2 in Hwf.
      apply delete_middle; intros Hin; apply Hwf; apply in_or_app;
        [left|right]; exact Hin.
  - pose proof (find_instance_none id c Hfind) as Hnone.
    split; [|split; [reflexivity|discriminate]].
    split; [discriminate|].
    intros [e [Hin Hid]]. rewrite Forall_forall in Hnone.
    exfalso. apply (Hnone e Hin Hid).
Qed.

Lemma X1_delete_first_match_witness :
  delete_instance "I1" stamped_cache
  = (true, [("P2_I2", make_instance "P2" "I2" (dog 6000000) (Some 1) None 3999000)])
  /\ exists pre e post,
       stamped_cache = (pre ++ e :: post)%list
       /\ gameInstanceId (snd e) = "I1"
       /\ Forall (fun e' => gameInstanceId (snd e') <> "I1") pre
       /\ snd (delete_instance "I1" stamped_cache) = (pre ++ post)%list.
Proof.
  split; [reflexivity|].
  apply (@X1_delete_first_match "I1" stamped_cache).
  - unfold JSMap.wf. vm_compute.
    repeat constructor; simpl; intuition discriminate.
  - reflexivity.
Defined.

(** X2: whatever calls the server serves from the empty map, reports,
    sweep ticks and deletions in any order and at any clock values, the map
    never holds more than 100 entries and never two entries under one key. *)
Theorem X2_capacity_under_all_calls (calls : list (Call * Z)) :
  (JSMap.size (run calls JSMap.empty) <= 100)%nat
  /\ NoDup (JSMap.keys (run calls JSMap.empty)).
Proof.
  destruct (run_ok calls empty_ok) as [Hwf Hsz]. split; assumption.
Qed.

(** X3: the key of [report] separates two pairs whenever neither [placeId]
    contains an underscore. *)
Theorem X3_key_separates_without_underscore p1 g1 p2 g2 :
  has_underscore p1 = false -> has_underscore p2 = false ->
  (p1, g1) <> (p2, g2) -> make_key p1 g1 <> make_key p2 g2.
Proof.
  intros H1 H2 Hne Heq. apply Hne.
  destruct (make_key_injective p1 g1 p2 g2 H1 H2 Heq) as [-> ->]. reflexivity.
Qed.

Lemma X3_key_separates_without_underscore_witness :
  make_key "P1" "I_1" <> make_key "P1" "I_2".
Proof.
  apply (@X3_key_separates_without_underscore "P1" "I_1" "P1" "I_2");
    [reflexivity|reflexivity|discriminate].
Defined.

(** * Further properties of the handlers *)

(** ** More facts about the map *)

Section MoreMapFacts.
Variable V : Type.
Implicit Types (m : JSMap.t V) (k : string) (v : V).

Lemma set_absent k v m :
  ~ In k (JSMap.keys m) -> JSMap.set k v m = (m ++ [(k, v)])%list.
Proof.
  unfold JSMap.keys. induction m as [|[k0 v0] r IH]; simpl; intros Hnin.
  - reflexivity.
  - destruct (String.eqb_spec k k0) as [->|Hne].
    + exfalso. apply Hnin. left. reflexivity.
    + f_equal. apply IH. intros Hin. apply Hnin. right. exact Hin.
Qed.

Lemma set_present_keys k v m :
  In k (JSMap.keys m) -> JSMap.keys (JSMap.set k v m) = JSMap.keys m.
Proof.
  unfold JSMap.keys. induction m as [|[k0 v0] r IH]; simpl; intros Hin.
  - contradiction.
  - destruct (String.eqb_spec k k0) as [->|Hne]; simpl; [reflexivity|].
    f_equal. apply IH. destruct Hin as [Heq|Hin]; [congruence|exact Hin].
Qed.

Lemma set_same k v m : JSMap.get k m = Some v -> JSMap.set k v m = m.
Proof.
  induction m as [|[k0 v0] r IH]; simpl; [discriminate|].
  destruct (String.eqb_spec k k0) as [->|Hne]; intros H.
  - injection H as ->. reflexivity.
  - f_equal. apply IH. exact H.
Qed.

Lemma get_none_iff k m : JSMap.get k m = None <-> ~ In k (JSMap.keys m).
Proof.
  unfold JSMap.keys. induction m as [|[k0 v0] r IH]; simpl.
  - tauto.
  - destruct (String.eqb_spec k k0) as [->|Hne].
    + split; [discriminate|]. intros H. exfalso. apply H. left. reflexivity.
    + rewrite IH. split; intros H; [intros [Heq|Hin]; [congruence|tauto]|tauto].
Qed.

Lemma wf_filter (f : string * V -> bool) m :
  JSMap.wf m -> JSMap.wf (filter f m).
Proof.
  unfold JSMap.wf, JSMap.keys. induction m as [|e r IH]; simpl; intros Hwf.
  - constructor.
  - inversion Hwf as [|? ? Hnin Hr]; subst.
    destruct (f e); simpl; [|apply IH; exact Hr].
    constructor; [|apply IH; exact Hr].
    intros Hin. apply Hnin. apply in_map_iff in Hin.
    destruct Hin as [x [Hx Hin]]. apply filter_In in Hin.
    apply in_map_iff. exists x. tauto.
Qed.

Lemma get_filter (f : string * V -> bool) k m :
  JSMap.wf m ->
  JSMap.get k (filter f m)
  = match JSMap.get k m with
    | Some v => if f (k, v) then Some v else None
    | None => None
    end.
Proof.
  unfold JSMap.wf, JSMap.keys. induction m as [|[k0 v0] r IH]; simpl; intros Hwf.
  - reflexivity.
  - inversion Hwf as [|? ? Hnin Hr]; subst.
    destruct (String.eqb_spec k k0) as [->|Hne].
    + destruct (f (k0, v0)) eqn:Hf; simpl.
      * rewrite String.eqb_refl. reflexivity.
      * apply get_none_iff. intros Hin. apply Hnin.
        unfold JSMap.keys in Hin. apply in_map_iff in Hin.
        destruct Hin as [x [Hx Hin]]. apply filter_In in Hin.
        apply in_map_iff. exists x. tauto.
    + destruct (f (k0, v0)); simpl.
      * destruct (String.eqb_spec k k0); [contradiction|]. apply IH. exact Hr.
      * apply IH. exact Hr.
Qed.
End MoreMapFacts.

Lemma filter_filter_impl (A : Type) (f g : A -> bool) (l : list A) :
  (forall x, f x = true -> g x = true) ->
  filter f (filter g l) = filter f l.
Proof.
  intros Himp. induction l as [|x l IH]; simpl; [reflexivity|].
  destruct (g x) eqn:Hg; simpl.
  - destruct (f x); [f_equal|]; exact IH.
  - destruct (f x) eqn:Hf; [|exact IH].
    apply Himp in Hf. congruence.
Qed.

(** ** The sweep over time *)

(** X4: a later sweep makes an earlier one redundant: sweeping at clock
    [now1] and then at [now2 >= now1] leaves the same map as sweeping once at
    [now2]; in particular a second tick at the same clock changes nothing. *)
Theorem X4_later_sweep_subsumes_earlier now1 now2 (c : Cache) :
  JSMap.wf c -> now1 <= now2 ->
  sweep now2 (sweep now1 c) = sweep now2 c
  /\ sweep now2 (sweep now2 c) = sweep now2 c.
Proof.
  intros Hwf Hle.
  assert (Hgen : forall n1 n2, n1 <= n2 ->
            sweep n2 (sweep n1 c) = sweep n2 c).
  { intros n1 n2 Hn. rewrite (sweep_filter n1 Hwf).
    rewrite sweep_filter by (apply wf_filter; exact Hwf).
    rewrite (sweep_filter n2 Hwf).
    apply filter_filter_impl. intros e. unfold kept, sweep_test.
    destruct (Z.gtb_spec (n2 - timestamp (snd e) * 1000) INSTANCE_TTL);
      destruct (Z.gtb_spec (n1 - timestamp (snd e) * 1000) INSTANCE_TTL);
      simpl; try reflexivity; try discriminate; lia. }
  split; apply Hgen; lia.
Qed.

Lemma X4_later_sweep_subsumes_earlier_witness :
  sweep 9000000 (sweep 4000000 stamped_cache) = sweep 9000000 stamped_cache
  /\ sweep 9000000 (sweep 9000000 stamped_cache) = sweep 9000000 stamped_cache.
Proof.
  apply (@X4_later_sweep_subsumes_earlier 4000000 9000000 stamped_cache).
  - unfold JSMap.wf. vm_compute.
    repeat constructor; simpl; intuition discriminate.
  - discriminate.
Defined.

Lemma admitted_inv body now key inst :
  admitted body now = Some (key, inst) ->
  exists p g a,
    body_placeId body = Some p /\ body_gameInstanceId body = Some g
    /\ body_animalData body = Some a
    /\ missing_required body = false
    /\ js_lt (value a) 3000000 = false
    /\ key = make_key p g
    /\ inst = make_instance p g a (body_timestamp body) (body_source body) now.
Proof.
  unfold admitted.
  destruct (body_placeId body) as [p|]; [|discriminate].
  destruct (body_gameInstanceId body) as [g|]; [|discriminate].
  destruct (body_animalData body) as [a|]; [|discriminate].
  destruct (missing_required body) eqn:Hm; [discriminate|].
  destruct (js_lt (value a) 3000000) eqn:Hlt; [discriminate|].
  intros H. injection H as <- <-.
  exists p, g, a. repeat split; assumption.
Qed.

(** X5: a stored report that carries no [timestamp] (or the timestamp 0) is
    stamped with the clock of its arrival in whole seconds, so the sweep
    treats it by its age in the cache to within a second: it survives every
    sweep up to 3599001 ms after its arrival and is removed by any sweep more
    than 3600000 ms after it. *)
Theorem X5_unstamped_report_expires_by_age body t now (c : Cache) key inst :
  cache_ok c ->
  admitted body t = Some (key, inst) ->
  body_timestamp body = None \/ body_timestamp body = Some 0 ->
  (now - t <= 3599001 ->
     JSMap.get key (sweep now (snd (report body t c))) = Some inst)
  /\ (now - t > 3600000 ->
     JSMap.get key (sweep now (snd (report body t c))) = None).
Proof.
  intros Hok Hadm Hts.
  assert (Hok' : cache_ok (snd (report body t c))) by (apply report_ok; exact Hok).
  assert (Hget : JSMap.get key (snd (report body t c)) = Some inst).
  { rewrite (@report_admitted body t c key inst Hadm). simpl.
    apply get_after_limit. exact Hok. }
  assert (Hstamp : timestamp inst = t / 1000).
  { destruct (admitted_inv body t Hadm) as [p [g [a [_ [_ [_ [_ [_ [_ ->]]]]]]]]].
    destruct Hts as [-> | ->]; reflexivity. }
  pose proof (Z.div_mod t 1000 ltac:(lia)) as Hdm.
  pose proof (Z.mod_pos_bound t 1000 ltac:(lia)) as Hmod.
  rewrite (sweep_filter now (proj1 Hok')).
  rewrite get_filter by apply Hok'. rewrite Hget.
  unfold kept, sweep_test. simpl. rewrite Hstamp. unfold INSTANCE_TTL.
  split; intros H;
    destruct (Z.gtb_spec (now - t / 1000 * 1000) 3600000); simpl;
    try reflexivity; lia.
Qed.

Lemma X5_unstamped_report_expires_by_age_witness :
  let c := snd (report (sample_body "P1" "I1" 5000000) 1500 JSMap.empty) in
  JSMap.get "P1_I1" (sweep 3600500 c)
  = Some (make_instance "P1" "I1" (dog 5000000) None None 1500)
  /\ JSMap.get "P1_I1" (sweep 3601501 c) = None.
Proof.
  split.
  - apply (@X5_unstamped_report_expires_by_age
             (sample_body "P1" "I1" 5000000) 1500 3600500 JSMap.empty
             "P1_I1" (make_instance "P1" "I1" (dog 5000000) None None 1500)
             empty_ok eq_refl (or_introl eq_refl)).
    lia.
  - apply (@X5_unstamped_report_expires_by_age
             (sample_body "P1" "I1" 5000000) 1500 3601501 JSMap.empty
             "P1_I1" (make_instance "P1" "I1" (dog 5000000) None None 1500)
             empty_ok eq_refl (or_introl eq_refl)).
    lia.
Defined.

(** ** What one report changes *)

Lemma report_new_key body now (c : Cache) key inst :
  cache_ok c ->
  admitted body now = Some (key, inst) ->
  JSMap.get key c = None ->
  snd (report body now c)
  = ((if (JSMap.size c <? 100)%nat then c else tl c) ++ [(key, inst)])%list.
Proof.
  intros [Hwf Hsz] Hadm Hnone.
  apply get_none_iff in Hnone.
  rewrite (@report_admitted body now c key inst Hadm). cbn [snd].
  assert (Hwf' : JSMap.wf (JSMap.set key inst c))
    by (apply JSMapFacts.wf_set; exact Hwf).
  revert Hwf'. rewrite (@set_absent _ key inst c Hnone). intros Hwf'.
  unfold MAX_STORED_INSTANCES in *.
  destruct (Nat.ltb_spec (JSMap.size c) 100) as [Hlt|Hge].
  - apply limit_size_within.
    unfold JSMap.size, MAX_STORED_INSTANCES in *.
    rewrite length_app. cbn [List.length]. lia.
  - rewrite limit_size_over; [|exact Hwf'|].
    + destruct c as [|e r]; [unfold JSMap.size in Hge; simpl in Hge; lia|].
      reflexivity.
    + unfold JSMap.size, MAX_STORED_INSTANCES in *.
      rewrite length_app. cbn [List.length]. lia.
Qed.

(** X6: a stored report under a key the map does not hold yet is added at
    the end of the map; if the map already held 100 entries, its first entry
    is dropped and every other entry keeps its place.  The count that
    [/api/health] shows grows by one, up to 100. *)
Theorem X6_new_key_goes_last body now (c : Cache) key inst :
  cache_ok c ->
  admitted body now = Some (key, inst) ->
  JSMap.get key c = None ->
  snd (report body now c)
  = ((if (JSMap.size c <? 100)%nat then c else tl c) ++ [(key, inst)])%list
  /\ health_instances (snd (report body now c))
     = Nat.min 100 (S (health_instances c)).
Proof.
  intros Hok Hadm Hnone.
  rewrite (report_new_key body now Hok Hadm Hnone).
  split; [reflexivity|].
  destruct Hok as [_ Hsz].
  unfold health_instances, JSMap.size, MAX_STORED_INSTANCES in *.
  rewrite length_app. cbn [List.length].
  destruct (Nat.ltb_spec (List.length c) 100) as [Hlt|Hge]; [lia|].
  destruct c as [|e r]; cbn [tl List.length] in *; lia.
Qed.

Lemma X6_new_key_goes_last_witness :
  snd (report (sample_body "P9" "I9" 4000000) 5000 stamped_cache)
  = (stamped_cache
     ++ [("P9_I9", make_instance "P9" "I9" (dog 4000000) None None 5000)])%list
  /\ health_instances
       (snd (report (sample_body "P9" "I9" 4000000) 5000 stamped_cache)) = 3%nat.
Proof.
  assert (Hok : cache_ok stamped_cache)
    by (apply run_reports_ok, empty_ok).
  apply (@X6_new_key_goes_last (sample_body "P9" "I9" 4000000) 5000
           stamped_cache "P9_I9"
           (make_instance "P9" "I9" (dog 4000000) None None 5000)
           Hok eq_refl eq_refl).
Defined.

(** X7: a stored report under a key the map already holds replaces the
    record in place: the order of the keys, the number of entries and every
    other entry are as before, so a refreshed entry does not move away from
    the end of the map that the size limit evicts. *)
Theorem X7_known_key_keeps_its_place body now (c : Cache) key inst old :
  cache_ok c ->
  admitted body now = Some (key, inst) ->
  JSMap.get key c = Some old ->
  let c' := snd (report body now c) in
  JSMap.keys c' = JSMap.keys c
  /\ health_instances c' = health_instances c
  /\ JSMap.get key c' = Some inst
  /\ forall k, k <> key -> JSMap.get k c' = JSMap.get k c.
Proof.
  intros [Hwf Hsz] Hadm Hold c'. subst c'.
  assert (Hin : In key (JSMap.keys c)).
  { destruct (in_dec string_dec key (JSMap.keys c)) as [H|H]; [exact H|].
    apply get_none_iff in H. congruence. }
  pose proof (@set_present_keys _ key inst c Hin) as Hkeys.
  assert (Hsame : JSMap.size (JSMap.set key inst c) = JSMap.size c).
  { unfold JSMap.size. rewrite <- (length_map fst), <- (length_map fst c).
    unfold JSMap.keys in Hkeys. rewrite Hkeys. reflexivity. }
  rewrite (@report_admitted body now c key inst Hadm). simpl.
  rewrite limit_size_within by (rewrite Hsame; exact Hsz).
  split; [exact Hkeys|]. split; [exact Hsame|].
  split; [apply JSMapFacts.get_set_same|].
  intros k Hne. apply JSMapFacts.get_set_other. exact Hne.
Qed.

Lemma X7_known_key_keeps_its_place_witness :
  let c' := snd (report (sample_body "P1" "I1" 9000000) 7000 stamped_cache) in
  JSMap.keys c' = ["P1_I1"; "P2_I2"]
  /\ JSMap.get "P1_I1" c'
     = Some (make_instance "P1" "I1" (dog 9000000) None None 7000).
Proof.
  assert (Hok : cache_ok stamped_cache)
    by (apply run_reports_ok, empty_ok).
  destruct (@X7_known_key_keeps_its_place
              (sample_body "P1" "I1" 9000000) 7000 stamped_cache "P1_I1"
              (make_instance "P1" "I1" (dog 9000000) None None 7000)
              (make_instance "P1" "I1" (dog 5000000) (Some 5000) None 0)
              Hok eq_refl eq_refl) as [Hkeys [_ [Hget _]]].
  split; [rewrite Hkeys; reflexivity|exact Hget].
Defined.

(** X8: sending the same request again at the same clock value changes
    nothing more: the answer and the map are those of the first call. *)
Theorem X8_report_twice_is_report_once body now (c : Cache) :
  cache_ok c ->
  report body now (snd (report body now c)) = report body now c.
Proof.
  intros Hok.
  destruct (admitted body now) as [[key inst]|] eqn:Hadm.
  - assert (Hok' : cache_ok (snd (report body now c)))
      by (apply report_ok; exact Hok).
    rewrite (@report_admitted body now (snd (report body now c)) key inst Hadm).
    revert Hok'. rewrite (@report_admitted body now c key inst Hadm). simpl.
    intros [Hwf' Hsz']. f_equal.
    rewrite set_same by (apply get_after_limit; exact Hok).
    apply limit_size_within. exact Hsz'.
  - pose proof (@report_not_admitted body now c Hadm) as Hc.
    destruct (report_inv body now c) as [Hm|p g a Hp Hg Ha Hm Hlt|p g a Hp Hg Ha Hm Hlt];
      simpl in *.
    + unfold report. rewrite Hm. reflexivity.
    + unfold report. rewrite Hm, Hp, Hg, Ha, Hlt. reflexivity.
    + unfold admitted in Hadm. rewrite Hp, Hg, Ha, Hm, Hlt in Hadm. discriminate.
Qed.

Lemma X8_report_twice_is_report_once_witness :
  report (sample_body "P9" "I9" 4000000) 5000
    (snd (report (sample_body "P9" "I9" 4000000) 5000 stamped_cache))
  = report (sample_body "P9" "I9" 4000000) 5000 stamped_cache.
Proof.
  apply (@X8_report_twice_is_report_once
           (sample_body "P9" "I9" 4000000) 5000 stamped_cache).
  apply run_reports_ok, empty_ok.
Defined.

(** ** [/api/best] against [/api/instances] *)

Lemma hd_insert_sorted (A : Type) (cmp : A -> A -> option Z) x (l : list A) :
  hd_error (insert_sorted cmp x l)
  = match l with
    | [] => Some x
    | y :: _ => if comes_first cmp x y then Some x else Some y
    end.
Proof.
  destruct l as [|y r]; simpl; [reflexivity|].
  destruct (comes_first cmp x y); reflexivity.
Qed.

(** The head of the sorted array is the first entry of greatest value. *)
Lemma sort_head_first_max (pre post : list Instance) i v :
  value (animalData i) = Some v ->
  (forall x, In x pre -> exists w, value (animalData x) = Some w /\ w < v) ->
  (forall x, In x post -> exists w, value (animalData x) = Some w /\ w <= v) ->
  hd_error (array_sort by_value_desc (pre ++ i :: post)) = Some i.
Proof.
  intros Hi Hpre Hpost. induction pre as [|x pre IH]; simpl.
  - rewrite hd_insert_sorted.
    destruct (array_sort by_value_desc post) as [|y r] eqn:Hs; [reflexivity|].
    assert (Hy : In y post).
    { apply (in_array_sort by_value_desc). rewrite Hs. left. reflexivity. }
    destruct (Hpost y Hy) as [w [Hw Hle]].
    unfold comes_first, by_value_desc. rewrite Hw, Hi.
    destruct (Z.leb_spec (w - v) 0); [reflexivity|lia].
  - rewrite hd_insert_sorted.
    assert (IH' : hd_error (array_sort by_value_desc (pre ++ i :: post)) = Some i).
    { apply IH. intros y Hy. apply Hpre. right. exact Hy. }
    destruct (array_sort by_value_desc (pre ++ i :: post)) as [|y r];
      [discriminate|].
    simpl in IH'. injection IH' as ->.
    destruct (Hpre x (or_introl eq_refl)) as [w [Hw Hlt]].
    unfold comes_first, by_value_desc. rewrite Hw, Hi.
    destruct (Z.leb_spec (v - w) 0); [lia|reflexivity].
Qed.

Lemma hd_slice0 (A : Type) (limit : Z) (l : list A) :
  1 <= limit -> hd_error (slice0 limit l) = hd_error l.
Proof.
  intros H. rewrite slice0_nonneg by lia.
  destruct (Z.to_nat limit) as [|n] eqn:Hn; [lia|].
  destruct l; reflexivity.
Qed.

(** X9: the entry that [/api/best] picks is the first entry of the list of
    [/api/instances], for every [minValue] that the entry's value reaches
    and every [limit >= 1]: the two handlers agree on the best instance,
    ties included. *)
Theorem X9_best_is_head_of_instances minValue limit (c : Cache) i :
  best_scan c = Some i ->
  js_ge (value (animalData i)) minValue = true ->
  1 <= limit ->
  hd_error (query minValue limit c) = Some i.
Proof.
  intros Hbest Hge Hlim.
  pose proof (best_scan_inv c) as Hinv. unfold best_inv in Hinv.
  unfold best_scan in Hbest.
  destruct (fold_left best_step (JSMap.values c) (None, 0)) as [[b|] bv];
    simpl in *; [|discriminate].
  injection Hbest as ->.
  destruct Hinv as [pre [post [Hseen [Hi [Hpos [Hpre Hpost]]]]]].
  unfold query. rewrite hd_slice0 by exact Hlim.
  rewrite Hseen, filter_app. simpl. rewrite Hge.
  apply sort_head_first_max with (v := bv); [exact Hi| |].
  - intros x Hx. apply filter_In in Hx. destruct Hx as [Hx Hxge].
    unfold js_ge in Hxge.
    destruct (value (animalData x)) as [w|] eqn:Hw; [|discriminate].
    exists w. split; [reflexivity|apply (Hpre x w Hx Hw)].
  - intros x Hx. apply filter_In in Hx. destruct Hx as [Hx Hxge].
    unfold js_ge in Hxge.
    destruct (value (animalData x)) as [w|] eqn:Hw; [|discriminate].
    exists w. split; [reflexivity|apply (Hpost x w Hx Hw)].
Qed.

Lemma X9_best_is_head_of_instances_witness :
  hd_error (query 3000000 50 stamped_cache)
  = Some (make_instance "P2" "I2" (dog 6000000) (Some 1) None 3999000).
Proof.
  apply (@X9_best_is_head_of_instances 3000000 50 stamped_cache
           (make_instance "P2" "I2" (dog 6000000) (Some 1) None 3999000));
    [reflexivity|reflexivity|lia].
Defined.



(** ** What [/api/instances] sends *)

(** X11: the [count] of the answer is the length of its list.  The limit in
    force is never 0; when it is positive the list has as many elements as
    there are entries with [value >= minValue], up to the limit; when it is
    negative, that many entries less the absolute value of the limit. *)
Theorem X11_instances_count q now (c : Cache) :
  let r := instances q now c in
  let minValue := js_or (parseInt_param (query_minValue q)) 3000000 in
  let limit := js_or (parseInt_param (query_limit q)) 50 in
  let matching :=
    List.length
      (filter (fun i => js_ge (value (animalData i)) minValue) (JSMap.values c)) in
  instances_count r = List.length (instances_list r)
  /\ limit <> 0
  /\ (0 < limit -> instances_count r = Nat.min (Z.to_nat limit) matching)
  /\ (limit < 0 -> instances_count r = (matching - Z.to_nat (- limit))%nat).
Proof.
  intros r minValue limit matching.
  split; [unfold r, instances; cbn [instances_count instances_list];
          rewrite length_map; reflexivity|].
  split.
  { unfold limit, js_or.
    destruct (parseInt_param (query_limit q)) as [n|]; [|discriminate].
    unfold truthy, Truthy_Z. destruct (Z.eqb_spec n 0); simpl; [discriminate|assumption]. }
  unfold r, instances. cbn [instances_count]. fold minValue. fold limit.
  unfold query.
  set (whole := array_sort by_value_desc _).
  assert (Hlen : List.length whole = matching)
    by (unfold whole; apply length_array_sort).
  split; intros Hl.
  - rewrite slice0_nonneg by lia. rewrite length_firstn, Hlen. reflexivity.
  - rewrite slice0_neg by exact Hl. rewrite length_firstn, Hlen. lia.
Qed.

Lemma X11_instances_count_witness :
  instances_count
    (instances {| query_minValue := None; query_limit := Some "1" |}
       4000000 stamped_cache) = 1%nat.
Proof.
  destruct (X11_instances_count
              {| query_minValue := None; query_limit := Some "1" |}
              4000000 stamped_cache) as [_ [_ [Hpos _]]].
  rewrite Hpos; [reflexivity|reflexivity].
Defined.

(** X13: every element of the answer is the projection of an entry of the
    map whose value reaches the [minValue] in force, and its [age] is the
    time since the entry was last written, in whole seconds rounded down. *)
Theorem X13_views_are_entries q now (c : Cache) v :
  In v (instances_list (instances q now c)) ->
  exists k i,
    In (k, i) c
    /\ v = project now i
    /\ js_ge (value (animalData i))
         (js_or (parseInt_param (query_minValue q)) 3000000) = true
    /\ view_age v * 1000 <= now - lastUpdated i < view_age v * 1000 + 1000.
Proof.
  unfold instances. cbn [instances_list]. intros Hin.
  apply in_map_iff in Hin. destruct Hin as [i [<- Hin]].
  apply in_query in Hin. destruct Hin as [Hval Hge].
  apply in_values in Hval. destruct Hval as [k Hk].
  exists k, i. repeat split; try assumption; cbn [project view_age].
  - pose proof (Z.mul_div_le (now - lastUpdated i) 1000 ltac:(lia)). lia.
  - pose proof (Z.mul_succ_div_gt (now - lastUpdated i) 1000 ltac:(lia)). lia.
Qed.

Lemma X13_views_are_entries_witness :
  exists k i,
    In (k, i) old_cache
    /\ project 4000999 (make_instance "P1" "I1" (dog 5000000) None None 0)
       = project 4000999 i
    /\ js_ge (value (animalData i)) 3000000 = true
    /\ 4000 * 1000 <= 4000999 - lastUpdated i < 4000 * 1000 + 1000.
Proof.
  apply (@X13_views_are_entries
           {| query_minValue := None; query_limit := None |} 4000999 old_cache
           (project 4000999 (make_instance "P1" "I1" (dog 5000000) None None 0))).
  left. reflexivity.
Defined.

(** ** The invariant on stored entries *)

Lemma in_set (V : Type) (m : JSMap.t V) k v e :
  In e (JSMap.set k v m) -> e = (k, v) \/ In e m.
Proof.
  induction m as [|[k0 v0] r IH]; simpl.
  - intros [<-|[]]. left. reflexivity.
  - destruct (String.eqb k k0); simpl.
    + intros [<-|H]; [left; reflexivity|right; right; exact H].
    + intros [<-|H]; [right; left; reflexivity|].
      destruct (IH H) as [->|H']; [left; reflexivity|right; right; exact H'].
Qed.

Lemma in_limit_size (m : Cache) e : In e (limit_size m) -> In e m.
Proof.
  unfold limit_size.
  destruct (MAX_STORED_INSTANCES <? JSMap.size m)%nat; [|tauto].
  destruct (JSMap.first_key m); [|tauto].
  intros H. apply JSMapFacts.in_delete in H. tauto.
Qed.

Lemma js_or_string_nonempty (x : option string) (d : string) :
  d <> "" -> js_or x d <> "".
Proof.
  intros Hd. unfold js_or. destruct x as [s|]; [|exact Hd].
  unfold truthy, Truthy_string.
  destruct (String.eqb_spec s ""); simpl; assumption.
Qed.

Lemma admitted_entry_ok body now key inst :
  admitted body now = Some (key, inst) -> entry_ok (key, inst).
Proof.
  intros Hadm.
  destruct (admitted_inv body now Hadm) as [p [g [a [Hp [Hg [Ha [Hm [Hlt [-> ->]]]]]]]]].
  assert (Hnm : ~ (body_placeId body = None \/ body_placeId body = Some ""
                   \/ body_gameInstanceId body = None
                   \/ body_gameInstanceId body = Some ""
                   \/ body_animalData body = None)).
  { rewrite <- missing_required_iff. congruence. }
  unfold entry_ok. cbn [fst snd make_instance placeId gameInstanceId source
                        animalData value].
  repeat split.
  - intros ->. apply Hnm. right. left. exact Hp.
  - intros ->. apply Hnm. right. right. right. left. exact Hg.
  - apply js_or_string_nonempty. discriminate.
  - exact Hlt.
Qed.

Lemma step_entry_ok (c : Cache) call :
  Forall entry_ok c -> Forall entry_ok (step c call).
Proof.
  rewrite !Forall_forall. intros Hall e. destruct call as [[body| |id] now];
    unfold step; cbn [fst snd].
  - destruct (admitted body now) as [[key inst]|] eqn:Hadm.
    + rewrite (@report_admitted body now c key inst Hadm). cbn [snd].
      intros Hin. apply in_limit_size in Hin. apply in_set in Hin.
      destruct Hin as [->|Hin]; [|apply Hall; exact Hin].
      apply (admitted_entry_ok body now Hadm).
    + rewrite (@report_not_admitted body now c Hadm). apply Hall.
  - intros Hin. apply sweep_in in Hin. apply Hall. tauto.
  - unfold delete_instance.
    destruct (find_instance id (JSMap.entries c)); cbn [snd]; [|apply Hall].
    intros Hin. apply JSMapFacts.in_delete in Hin. apply Hall. tauto.
Qed.

Lemma run_entry_ok calls (c : Cache) :
  Forall entry_ok c -> Forall entry_ok (run calls c).
Proof.
  unfold run. revert c.
  induction calls as [|call calls IH]; simpl; intros c Hc; [exact Hc|].
  apply IH, step_entry_ok, Hc.
Qed.

(** On a map the server reaches, a stored value is absent or at least
    3000000. *)
Lemma run_value_admitted calls k i :
  In (k, i) (run calls JSMap.empty) ->
  value (animalData i) = None
  \/ exists v, value (animalData i) = Some v /\ 3000000 <= v.
Proof.
  intros Hin.
  pose proof (run_entry_ok calls (Forall_nil entry_ok)) as Hall.
  rewrite Forall_forall in Hall.
  destruct (Hall (k, i) Hin) as [_ [_ [_ [_ Hlt]]]]. cbn [fst snd] in *.
  unfold js_lt in Hlt. destruct (value (animalData i)) as [v|]; [|left; reflexivity].
  right. exists v. split; [reflexivity|].
  destruct (Z.ltb_spec v 3000000); [discriminate|assumption].
Qed.

(** X14: whatever calls the server serves from the empty map, every entry
    it holds sits under the key made of its own [placeId] and
    [gameInstanceId], both non-empty, has a non-empty [source], and has a
    value that is absent or at least 3000000. *)
Theorem X14_stored_entries_are_admitted (calls : list (Call * Z)) :
  forall k i,
    In (k, i) (run calls JSMap.empty) ->
    k = make_key (placeId i) (gameInstanceId i)
    /\ placeId i <> "" /\ gameInstanceId i <> "" /\ source i <> ""
    /\ (value (animalData i) = None
        \/ exists v, value (animalData i) = Some v /\ 3000000 <= v).
Proof.
  pose proof (run_entry_ok calls (Forall_nil entry_ok)) as Hall.
  intros k i Hin. rewrite Forall_forall in Hall.
  destruct (Hall (k, i) Hin) as [Hk [Hp [Hg [Hs _]]]]. cbn [fst snd] in *.
  repeat split; try assumption.
  apply (run_value_admitted calls k i Hin).
Qed.

Lemma X14_stored_entries_are_admitted_witness :
  "P1_I1" = make_key "P1" "I1" /\ "P1" <> "" /\ "I1" <> "" /\ "unknown" <> ""
  /\ (value (dog 5000000) = None
      \/ exists v, value (dog 5000000) = Some v /\ 3000000 <= v).
Proof.
  apply (@X14_stored_entries_are_admitted
           [(CallReport (stamped_body "P1" "I1" 5000000 5000), 0);
            (CallReport (stamped_body "P2" "I2" 6000000 1), 3999000);
            (CallSweep, 4000000)]
           "P1_I1" (make_instance "P1" "I1" (dog 5000000) (Some 5000) None 0)).
  left. reflexivity.
Defined.

(** X15: on every map the server reaches from the empty one, a [minValue] of
    3000000 or less shows nothing more than the default does: the answer of
    [/api/instances] is the one for the request without [minValue]. *)
Theorem X15_low_minValue_shows_nothing_more (calls : list (Call * Z)) q now :
  js_or (parseInt_param (query_minValue q)) 3000000 <= 3000000 ->
  instances q now (run calls JSMap.empty)
  = instances {| query_minValue := None; query_limit := query_limit q |}
      now (run calls JSMap.empty).
Proof.
  intros Hle. unfold instances. cbn [query_minValue query_limit].
  set (m := js_or (parseInt_param (query_minValue q)) 3000000) in *.
  change (js_or (parseInt_param None) 3000000) with 3000000.
  assert (Hq : forall limit,
            query m limit (run calls JSMap.empty)
            = query 3000000 limit (run calls JSMap.empty)).
  { intros limit. unfold query. do 2 f_equal.
    apply filter_ext_in. intros i Hi.
    apply in_values in Hi. destruct Hi as [k Hk].
    destruct (run_value_admitted calls k i Hk) as [Hnone|[v [Hv Hbig]]].
    - rewrite Hnone. reflexivity.
    - rewrite Hv. unfold js_ge.
      destruct (Z.geb_spec v m); destruct (Z.geb_spec v 3000000);
        try reflexivity; lia. }
  rewrite Hq. reflexivity.
Qed.

Lemma X15_low_minValue_shows_nothing_more_witness :
  instances {| query_minValue := Some "-5"; query_limit := Some "10" |} 4000000
    (run [(CallReport (stamped_body "P2" "I2" 5000000 5000), 0);
          (CallReport no_value_body, 1000)] JSMap.empty)
  = instances {| query_minValue := None; query_limit := Some "10" |} 4000000
      (run [(CallReport (stamped_body "P2" "I2" 5000000 5000), 0);
            (CallReport no_value_body, 1000)] JSMap.empty).
Proof.
  apply (@X15_low_minValue_shows_nothing_more
           [(CallReport (stamped_body "P2" "I2" 5000000 5000), 0);
            (CallReport no_value_body, 1000)]
           {| query_minValue := Some "-5"; query_limit := Some "10" |} 4000000).
  vm_compute. discriminate.
Defined.

(** ** Numbers in the query string *)










(** ** The order of eviction *)

Lemma run_reports_snoc calls call (c : Cache) :
  run_reports (calls ++ [call]) c
  = snd (report (fst call) (snd call) (run_reports calls c)).
Proof. unfold run_reports. rewrite fold_left_app. reflexivity. Qed.

Lemma tl_skipn (A : Type) (k : nat) (l : list A) :
  tl (skipn k l) = skipn (S k) l.
Proof.
  revert l. induction k as [|k IH]; intros [|x l]; try reflexivity.
  change (skipn (S (S k)) (x :: l)) with (skipn (S k) l).
  change (skipn (S k) (x :: l)) with (skipn k l).
  apply IH.
Qed.

Lemma in_skipn (A : Type) (k : nat) (l : list A) x :
  In x (skipn k l) -> In x l.
Proof.
  revert l. induction k as [|k IH]; intros [|y l]; simpl; try tauto.
  intros H. right. apply IH. exact H.
Qed.

(** X16: the map is a queue of the last 100 keys.  After any sequence of
    stored reports with pairwise distinct keys, the map holds, in order of
    arrival, the records of the last 100 of them (of all of them, if there
    are fewer). *)
Theorem X16_last_hundred_in_arrival_order
    (calls : list (ReportBody * Z)) (stored : list (string * Instance)) :
  Forall2 (fun call e => admitted (fst call) (snd call) = Some e) calls stored ->
  NoDup (map fst stored) ->
  run_reports calls JSMap.empty
  = skipn (List.length stored - 100) stored.
Proof.
  revert stored. induction calls as [|call calls IH] using rev_ind;
    intros stored Hall Hnd.
  - inversion Hall; subst. reflexivity.
  - apply Forall2_app_inv_l in Hall.
    destruct Hall as [stored' [last [Hall' [Hlast ->]]]].
    inversion Hlast as [|? e ? ? Hadm Hnil]; subst. inversion Hnil; subst.
    rewrite map_app in Hnd. simpl in Hnd.
    assert (Hnd' : NoDup (map fst stored'))
      by (apply NoDup_remove_1 in Hnd; rewrite app_nil_r in Hnd; exact Hnd).
    assert (Hfresh : ~ In (fst e) (map fst stored'))
      by (apply NoDup_remove_2 in Hnd; rewrite app_nil_r in Hnd; exact Hnd).
    specialize (IH stored' Hall' Hnd').
    rewrite run_reports_snoc. destruct e as [key inst]. cbn [fst] in Hfresh.
    assert (Hok : cache_ok (run_reports calls JSMap.empty))
      by (apply run_reports_ok, empty_ok).
    assert (Hnone : JSMap.get key (run_reports calls JSMap.empty) = None).
    { apply get_none_iff. rewrite IH. intros Hin. apply Hfresh.
      unfold JSMap.keys in Hin. apply in_map_iff in Hin.
      destruct Hin as [x [Hx Hin]]. apply in_skipn in Hin.
      apply in_map_iff. exists x. split; assumption. }
    rewrite (report_new_key (fst call) (snd call) Hok Hadm Hnone).
    rewrite IH. unfold JSMap.size. rewrite length_skipn, length_app.
    cbn [List.length].
    destruct (Nat.ltb_spec (List.length stored' - (List.length stored' - 100)) 100)
      as [Hlt|Hge].
    + replace (List.length stored' - 100)%nat with 0%nat by lia.
      replace (List.length stored' + 1 - 100)%nat with 0%nat by lia.
      reflexivity.
    + rewrite tl_skipn.
      replace (List.length stored' + 1 - 100)%nat
        with (S (List.length stored' - 100)) by lia.
      rewrite skipn_app.
      replace (S (List.length stored' - 100) - List.length stored')%nat
        with 0%nat by lia.
      reflexivity.
Qed.

Lemma X16_last_hundred_in_arrival_order_witness :
  run_reports (numbered_calls 3) JSMap.empty
  = [("1_I", make_instance "1" "I" (dog 3000001) None None 1000);
     ("2_I", make_instance "2" "I" (dog 3000002) None None 2000);
     ("3_I", make_instance "3" "I" (dog 3000003) None None 3000)].
Proof.
  apply (@X16_last_hundred_in_arrival_order (numbered_calls 3)
           [("1_I", make_instance "1" "I" (dog 3000001) None None 1000);
            ("2_I", make_instance "2" "I" (dog 3000002) None None 2000);
            ("3_I", make_instance "3" "I" (dog 3000003) None None 3000)]).
  - repeat constructor.
  - simpl. repeat constructor; simpl; intuition discriminate.
Defined.
